(** * mesoscoPy: gate-map orchestration, lock-in initialisation and plotting

    A shallow embedding of
      - [src/mesoscopy/experiment/double_gate_map.py] ([_go_to], [gate_map]),
      - [src/mesoscopy/instrument/lockin.py] ([initialise_lockin]),
      - [src/mesoscopy/analysis/plot.py] ([plot_dataset_1D], [plot_dataset_2D]).

    Python code that talks to instruments is written in a small monad that
    threads the chronological list of events the program has caused and that
    can raise a Python exception.  Values read back from the instruments are
    given by oracles over that history, so a reading may depend on
    everything that happened before it.  Reads and writes of instrument
    parameters are taken to succeed; the exceptions of the model are those
    of the Python code itself and of the collaborators it calls.  Python
    floats are modelled by rationals: the code only compares them and tests
    them for zero. *)

From Stdlib Require Import List String QArith Qabs Qround Bool Lia ZArith.
Import ListNotations.

Set Implicit Arguments.

(** ** Python results, exceptions and the event monad *)

Module Py.

(** The built-in exception classes the embedded code can meet, and
    [InvalidRangeError], which the specification gives the array generator. *)
Inductive exn : Set :=
| BaseException
| PyException
| LookupError
| IndexError
| KeyError
| ValueError
| NameError
| UnboundLocalError
| TypeError
| AttributeError
| InvalidRangeError.

Definition exn_eqb (a b : exn) : bool :=
  match a, b with
  | BaseException, BaseException | PyException, PyException
  | LookupError, LookupError | IndexError, IndexError
  | KeyError, KeyError | ValueError, ValueError
  | NameError, NameError | UnboundLocalError, UnboundLocalError
  | TypeError, TypeError | AttributeError, AttributeError
  | InvalidRangeError, InvalidRangeError => true
  | _, _ => false
  end.

(** Direct base class of an exception class. *)
Definition exn_base (e : exn) : option exn :=
  match e with
  | BaseException => None
  | PyException => Some BaseException
  | LookupError => Some PyException
  | IndexError => Some LookupError
  | KeyError => Some LookupError
  | ValueError => Some PyException
  | NameError => Some PyException
  | UnboundLocalError => Some NameError
  | TypeError => Some PyException
  | AttributeError => Some PyException
  | InvalidRangeError => Some PyException
  end.

Fixpoint exn_issubclass_fuel (fuel : nat) (e cls : exn) : bool :=
  exn_eqb e cls ||
  match fuel with
  | O => false
  | S fuel' =>
      match exn_base e with
      | Some b => exn_issubclass_fuel fuel' b cls
      | None => false
      end
  end.

(** [issubclass(e, cls)]: the hierarchy above has depth four. *)
Definition exn_issubclass (e cls : exn) : bool := exn_issubclass_fuel 4 e cls.

Inductive res (A : Type) : Type :=
| Returned (a : A)
| Raised (e : exn).

Arguments Raised {A} e.

(** A computation over events of type [Ev]: it receives the history so far
    and gives back its outcome with the extended history.  Events caused
    before an exception is raised stay in the history. *)
Definition M (Ev A : Type) : Type := list Ev -> res A * list Ev.

Definition ret {Ev A} (a : A) : M Ev A := fun h => (Returned a, h).

Definition raise {Ev A} (e : exn) : M Ev A := fun h => (Raised e, h).

Definition bind {Ev A B} (c : M Ev A) (k : A -> M Ev B) : M Ev B :=
  fun h =>
    match c h with
    | (Returned a, h') => k a h'
    | (Raised e, h') => (Raised e, h')
    end.

Declare Scope py_scope.
Delimit Scope py_scope with py.
Notation "x <- c1 ;; c2" := (bind c1 (fun x => c2))
  (at level 61, c1 at next level, right associativity) : py_scope.
Notation "' pat <- c1 ;; c2" :=
  (bind c1 (fun bound => match bound with pat => c2 end))
  (at level 61, pat pattern, c1 at next level, right associativity) : py_scope.
Notation "c1 ;; c2" := (bind c1 (fun _ => c2))
  (at level 61, right associativity) : py_scope.
Open Scope py_scope.

(** Record one event. *)
Definition emit {Ev} (e : Ev) : M Ev unit := fun h => (Returned tt, h ++ [e]).

(** Read the history (used by the oracles). *)
Definition history {Ev} : M Ev (list Ev) := fun h => (Returned h, h).

(** Lift the outcome of an external call. *)
Definition lift {Ev A} (r : res A) : M Ev A := fun h => (r, h).

(** [try: body / except cls: handler]. *)
Definition try_except {Ev A} (body : M Ev A) (cls : exn) (handler : M Ev A)
  : M Ev A :=
  fun h =>
    match body h with
    | (Returned a, h') => (Returned a, h')
    | (Raised e, h') =>
        if exn_issubclass e cls then handler h' else (Raised e, h')
    end.

(** [l[i]] on a Python list, for a non-negative index. *)
Definition index {Ev A} (l : list A) (i : nat) : M Ev A :=
  match nth_error l i with
  | Some a => ret a
  | None => raise IndexError
  end.

(** [for a in l: body(a)], without [break]. *)
Fixpoint for_each {Ev A} (l : list A) (body : A -> M Ev unit) : M Ev unit :=
  match l with
  | [] => ret tt
  | a :: rest => body a ;; for_each rest body
  end.

(** [s in l] for strings. *)
Definition str_in (s : string) (l : list string) : bool :=
  existsb (String.eqb s) l.

(** Every event that [c] adds to the history satisfies [P]. *)
Definition emits_only {Ev A} (P : Ev -> Prop) (c : M Ev A) : Prop :=
  forall h, exists tr, snd (c h) = h ++ tr /\ Forall P tr.

(** f-strings are kept unrendered, as the list of their pieces. *)
Inductive piece : Type :=
| Lit (s : string)
| Num (q : Q)
| Str (s : string)
| OptStr (s : option string)
| StrList (l : list string)
| Newline
| Tab.

Definition fstr : Type := list piece.

End Py.

Import Py.
Open Scope py_scope.

(** ** The laboratory: station, instruments and events *)

Module Lab.

(** The two channels of the Keithley 2600 ([station.keithley.smua] drives
    the top gate, [station.keithley.smub] the back gate). *)
Inductive chan : Set := smua | smub.

Definition chan_eqb (a b : chan) : bool :=
  match a, b with
  | smua, smua | smub, smub => true
  | _, _ => false
  end.

(** A Python class, identified by its qualified name, with the names of all
    its proper ancestors. *)
Record pyclass : Set := {
  qualname : string;
  ancestors : list string
}.

Definition Instrument_name : string := "qcodes.instrument.base.Instrument".
Definition MFLI_name : string := "zhinst.qcodes.mfli.MFLI".

(** A component of the station: what the code inspects is its class. *)
Record component : Set := {
  class_of : pyclass
}.

(** [isinstance(itm, C)]. *)
Definition isinstance (itm : component) (C : string) : bool :=
  String.eqb (qualname (class_of itm)) C
  || existsb (String.eqb C) (ancestors (class_of itm)).

(** [itm.__class__ == C]: classes are compared by identity. *)
Definition class_is (itm : component) (C : string) : bool :=
  String.eqb (qualname (class_of itm)) C.

(** [station.components]: a dict, iterated in insertion order.  A station
    built by [station_triton] holds the Keithley under 'keithley' and the
    Triton under 'triton'; any other station may lack them. *)
Record Station : Set := {
  components : list (string * component)
}.

(** Handles of the parameters that are passed to [sweep2d]. *)
Inductive parameter : Set :=
| Volt (c : chan)                                (* station.keithley.<c>.volt *)
| Curr (c : chan)                                (* station.keithley.<c>.curr *)
| DemodSample (lockin : string) (demod : nat)    (* station.<lockin>.demods[i].sample *)
| TritonT8                                       (* station.triton.T8 *)
| TritonBz.                                      (* station.triton.Bz *)

(** The arguments of one call of [sweep2d], positional ones first. *)
Record sweep2d_call : Type := {
  param_set1 : parameter;
  array1 : list Q;
  delay1 : Q;
  param_set2 : parameter;
  array2 : list Q;
  delay2 : Q;
  param_meas : list parameter;
  exp : option nat;
  measurement_name : fstr;
  use_threads : bool;
  measure_retrace : option bool
}.

(** Values written to a lock-in node. *)
Inductive setting : Type :=
| SNum (q : Q)
| SSqrt2.                                        (* 2**(1/2) *)

Inductive event : Type :=
| Sleep (seconds : Q)                            (* time.sleep(seconds) *)
| VoltSet (c : chan) (v : Q)                     (* channel.volt(v) *)
| VoltGet (c : chan)                             (* channel.volt() *)
| CurrGet (c : chan)                             (* channel.curr() *)
| InitialiseKeithley                             (* initialise_keithley(station) *)
| Sweep2d (call : sweep2d_call)                  (* sweep2d(...) *)
| LockinSet (lockin : string) (node : string) (value : setting)
| Print (msg : fstr).

(** The opaque handle [sweep2d] returns. *)
Inductive raw_data : Set := RunHandle (run_id : nat).

(** What the outside world answers.  Each oracle sees the whole history up
    to the call.  [generate_1D_sweep_array] and [sweep2d] belong to modules
    of the package that are not part of the embedded sources
    ([measurement/array.py], [measurement/sweep.py]); they are parameters
    here, and may raise. *)
Record lab : Type := {
  volt_of : chan -> list event -> Q;
  curr_of : chan -> list event -> Q;
  generate_1D_sweep_array : Q -> Q -> Q -> res (list Q);
  sweep2d : sweep2d_call -> list event -> res raw_data
}.

Definition Act (A : Type) : Type := M event A.

Definition sleep (s : Q) : Act unit := emit (Sleep s).

Definition volt_set (c : chan) (v : Q) : Act unit := emit (VoltSet c v).

Definition volt_get (L : lab) (c : chan) : Act Q :=
  h <- history ;; emit (VoltGet c) ;; ret (volt_of L c h).

Definition curr_get (L : lab) (c : chan) : Act Q :=
  h <- history ;; emit (CurrGet c) ;; ret (curr_of L c h).

Definition call_sweep2d (L : lab) (call : sweep2d_call) : Act raw_data :=
  h <- history ;; emit (Sweep2d call) ;; lift (sweep2d L call h).

(** [station.<name>], as in [station.keithley] and [station.triton]: the
    attribute is looked up among the components, and a station without a
    component of that name raises [AttributeError].  The component found
    under 'keithley' is taken to be the Keithley 2600 (with its channels
    [smua] and [smub]), the one under 'triton' the Triton. *)
Definition station_attr (station : Station) (name : string) : Act component :=
  match find (fun entry => String.eqb (fst entry) name) (components station)
  with
  | Some entry => ret (snd entry)
  | None => raise AttributeError
  end.

(** An instrument whose class is [zhinst.qcodes.mfli.MFLI] itself. *)
Definition exact_mfli (entry : string * component) : bool :=
  isinstance (snd entry) Instrument_name && class_is (snd entry) MFLI_name.

(** The discovery loop, written out identically in [gate_map]
    (double_gate_map.py, lines 93-97) and in [initialise_lockin]
    (lockin.py, lines 14-18):
      for name, itm in station.components.items():
          if isinstance(itm, Instrument):
              if itm.__class__ == zhinst.qcodes.mfli.MFLI:
                  lockins.append(name)                                   *)
Fixpoint find_lockins (items : list (string * component))
  (lockins : list string) : list string :=
  match items with
  | [] => lockins
  | (name, itm) :: rest =>
      if isinstance itm Instrument_name then
        if class_is itm MFLI_name then find_lockins rest (lockins ++ [name])
        else find_lockins rest lockins
      else find_lockins rest lockins
  end.

End Lab.

Import Lab.

(** ** [experiment/double_gate_map.py] *)

Module DoubleGateMap.

(** [a > b] on floats. *)
Definition Qgtb (a b : Q) : bool :=
  match a ?= b with
  | Gt => true
  | _ => false
  end.

(** Truth value of an [Optional[float]]: [None] and [0.0] are false. *)
Definition truthy (threshold : option Q) : bool :=
  match threshold with
  | None => false
  | Some t => negb (Qeq_bool t 0)
  end.

(** [threshold and channel.curr() > threshold]: the current is read only
    when [threshold] is true. *)
Definition threshold_exceeded (L : lab) (channel : chan)
  (threshold : option Q) : Act bool :=
  match threshold with
  | None => ret false
  | Some t =>
      if Qeq_bool t 0 then ret false
      else (c <- curr_get L channel ;; ret (Qgtb c t))
  end.

(** The [for v in tqdm(array, ...)] loop of [_go_to]; [tqdm] hands the
    elements over in order, and the progress bar it writes to the terminal,
    labelled [desc], is not among the events.  The result is the
    binding of [v] when the loop is left ([None]: never bound). *)
Fixpoint go_to_loop (L : lab) (channel : chan) (threshold : option Q)
  (array : list Q) (v_bound : option Q) : Act (option Q) :=
  match array with
  | [] => ret v_bound
  | v :: rest =>
      volt_set channel v ;;
      _ <- curr_get L channel ;;
      sleep 0.1 ;;
      brk <- threshold_exceeded L channel threshold ;;
      if brk then ret (Some v)
      else go_to_loop L channel threshold rest (Some v)
  end.

Definition _go_to (L : lab) (v0 v1 : Q) (channel : chan)
  (desc : option fstr) (threshold : option Q) : Act Q :=
  array <- lift (generate_1D_sweep_array L v0 v1 2e-1) ;;
  sleep 0.5 ;;
  v <- go_to_loop L channel threshold array None ;;
  sleep 0.5 ;;
  match v with
  | Some v => ret v
  | None => raise UnboundLocalError
  end.

(** The monitored parameters handed to [sweep2d] (lines 114-119). *)
Definition monitored (lockins : list string) : list parameter :=
  map (fun lockin => DemodSample lockin 0) lockins
  ++ [TritonT8; TritonBz; Curr smua; Curr smub].

Definition gate_map (L : lab) (xarray : list Q) (inner_delay : Q)
  (yarray : list Q) (outer_delay : Q) (station : Station)
  (exp : option nat) (label : option string)
  (measure_retrace : option bool) : Act raw_data :=
  emit InitialiseKeithley ;;
  let lockins := find_lockins (components station) [] in
  (* init_tg = station.keithley.smua.volt() *)
  _ <- station_attr station "keithley" ;;
  init_tg <- volt_get L smua ;;
  (* init_bg = station.keithley.smub.volt() *)
  _ <- station_attr station "keithley" ;;
  init_bg <- volt_get L smub ;;
  (* _go_to(init_tg, xarray[0], station.keithley.smua, desc=...) *)
  x0 <- index xarray 0 ;;
  _ <- station_attr station "keithley" ;;
  _ <- _go_to L init_tg x0 smua
         (Some [Lit "sweeping top gate to "; Num init_tg; Lit " V"]) None ;;
  (* _go_to(init_bg, yarray[0], station.keithley.smub, desc=...) *)
  y0 <- index yarray 0 ;;
  _ <- station_attr station "keithley" ;;
  _ <- _go_to L init_bg y0 smub
         (Some [Lit "sweeping back gate to "; Num init_bg; Lit " V"]) None ;;
  (* the arguments of sweep2d, from left to right *)
  _ <- station_attr station "keithley" ;;        (* station.keithley.smua.volt *)
  _ <- station_attr station "keithley" ;;        (* station.keithley.smub.volt *)
  (* *tuple(station.__getattr__(lockin).demods[0].sample ...):
     [monitored lockins] below *)
  _ <- station_attr station "triton" ;;          (* station.triton.T8 *)
  _ <- station_attr station "triton" ;;          (* station.triton.Bz *)
  _ <- station_attr station "keithley" ;;        (* station.keithley.smua.curr *)
  _ <- station_attr station "keithley" ;;        (* station.keithley.smub.curr *)
  raw_data <- call_sweep2d L
    {| param_set1 := Volt smua;
       array1 := xarray;
       delay1 := inner_delay;
       param_set2 := Volt smub;
       array2 := yarray;
       delay2 := outer_delay;
       param_meas := monitored lockins;
       Lab.exp := exp;
       measurement_name := [Lit "gate map "; OptStr label];
       use_threads := true;
       Lab.measure_retrace := measure_retrace |} ;;
  ret raw_data.

(** Modelled from the spec: [generate_1D_sweep_array] (measurement/array.py)
    is not among the embedded sources.  Section 4.1: given [start], [stop]
    and [step > 0], the ordered values from [start] to [stop] inclusive,
    advancing by [step] in the direction of [stop - start]; the last
    interval may be shorter so that the final element is [stop] exactly;
    [InvalidRangeError] when [step <= 0]. *)
Definition spec_sweep_array (start stop step : Q) : res (list Q) :=
  if Qle_bool step 0 then Raised InvalidRangeError
  else
    let n := Z.to_nat (Qceiling (Qabs (stop - start) / step)) in
    let dir := if Qle_bool start stop then 1 else - (1) in
    Returned
      (map (fun k => Qred (start + dir * inject_Z (Z.of_nat k) * step))
           (seq 0 n)
       ++ [stop]).

End DoubleGateMap.

(** ** [instrument/lockin.py] *)

Module Lockin.

(** [station.__getattr__(lockin).<node>(value)]: [lockin] is a key of
    [station.components], so the lookup gives that component. *)
Definition lockin_set (lockin node : string) (value : Q) : Act unit :=
  emit (LockinSet lockin node (SNum value)).

(** [station.__getattr__(lockins[0]).<node>(value)]. *)
Definition first_set (lockins : list string) (node : string) (value : setting)
  : Act unit :=
  l0 <- index lockins 0 ;; emit (LockinSet l0 node value).

Definition initialise_lockin (station : Station) (freq : Q) : Act unit :=
  let lockins := find_lockins (components station) [] in
  first_set lockins "oscs[0].freq" (SNum freq) ;;
  first_set lockins "sigouts[0].on" (SNum 1) ;;
  first_set lockins "sigouts[0].range" (SNum 10) ;;
  first_set lockins "sigouts[0].amplitudes0" SSqrt2 ;;
  first_set lockins "sigouts[0].enables0" (SNum 1) ;;
  first_set lockins "sigouts[0].enables1" (SNum 0) ;;
  first_set lockins "sigouts[0].imp50" (SNum 0) ;;
  first_set lockins "sigouts[0].offset" (SNum 0) ;;
  first_set lockins "sigouts[0].diff" (SNum 0) ;;
  first_set lockins "triggers.out[0].source" (SNum 52) ;;
  first_set lockins "triggers.out[1].source" (SNum 1) ;;
  for_each (tl lockins) (fun lockin =>
    lockin_set lockin "demods[1].adcselect" 3 ;;
    lockin_set lockin "extrefs[0].enable" 1 ;;
    lockin_set lockin "sigouts[0].on" 0 ;;
    lockin_set lockin "triggers.out[0].source" 0 ;;
    lockin_set lockin "triggers.out[1].source" 0) ;;
  for_each lockins (fun lockin =>
    lockin_set lockin "demods[0].oscselect" 0 ;;
    lockin_set lockin "demods[0].harmonic" 1 ;;
    lockin_set lockin "demods[0].phaseshift" 0 ;;
    lockin_set lockin "demods[0].sinc" 1 ;;
    lockin_set lockin "demods[0].timeconstant" 0.1 ;;
    lockin_set lockin "demods[0].order" 8 ;;
    lockin_set lockin "sigins[0].ac" 1 ;;
    lockin_set lockin "sigins[0].imp50" 0 ;;
    lockin_set lockin "sigins[0].diff" 1 ;;
    lockin_set lockin "sigins[0].float" 0 ;;
    lockin_set lockin "sigins[0].scaling" 1 ;;
    lockin_set lockin "sigins[0].range" 3e-3 ;;
    lockin_set lockin "sigouts[0].range" 10) ;;
  l0 <- index lockins 0 ;;
  emit (Print [Lit "Lock-in "; Str l0;
               Lit " sources the reference signal with f="; Num freq;
               Lit "Hz"; Newline; Lit "Output voltage: 1V"; Newline;
               Lit "Lock-ins "; StrList (tl lockins);
               Lit " are in sync. You can start measuring."]).

End Lockin.

(** ** [analysis/plot.py] *)

Module Plot.

(** [id: Union[int, str]]. *)
Inductive ident : Set :=
| RunId (n : nat)
| Guid (s : string).

(** What the code uses of the loaded dataset. *)
Record dataset_info : Set := {
  _run_id : nat;
  name : string;
  run_timestamp : string
}.

(** One dict of the pre-parsed data: keys ['name'], ['data'], ['shape']. *)
Record axis_data : Set := {
  axis_name : string;
  data : list Q;
  shape : list nat
}.

(** One element of the pre-parser's output: the axes of one plot. *)
Definition plot_data : Set := list axis_data.

(** Data of a parameter before pre-parsing; opaque to this module. *)
Inductive raw : Set := Raw (tag : nat).

(** The second component of [plt.subplots(...)]: one Axes object, or an
    array of them. *)
Inductive axes_obj : Set :=
| OneAxes (ax : nat)
| AxesArray (axs : list nat).

(** Python values the two plotting functions can return. *)
Inductive pyval : Set :=
| PyNone
| PyPair (axeslist : axes_obj) (colorbars : list (option nat)).

Inductive event : Type :=
| Print (msg : fstr)
| Subplots (nplots : nat) (figsize : Q * Q)
| Draw1D (ax : nat) (d : plot_data) (rescale_axes : bool) (title : fstr)
| Draw2D (ax : nat) (d : plot_data) (multiply_by : Q * Q * Q)
         (rescale_axes : bool) (title : fstr).

(** The collaborators of the plotting functions: the loaders of
    [analysis/load.py], the pre-parser of qcodes, and matplotlib.  Each may
    raise.  [draw_1D] and [draw_2D] stand for the numpy and matplotlib
    calls of a loop body, after its element selections. *)
Record env : Type := {
  get_dataset : ident -> res dataset_info;
  list_parameters : ident -> res (list string);       (* ...['dependent'] *)
  get_data_by_paramname : dataset_info -> string -> res raw;
  _complex_to_real_preparser : list raw -> string -> bool -> res (list plot_data);
  subplots : nat -> Q * Q -> res axes_obj;
  draw_1D : nat -> plot_data -> res unit;
  draw_2D : nat -> plot_data -> res unit
}.

Definition PAct (A : Type) : Type := M event A.

Definition complex_plot_types : list string :=
  ["real_and_imag"; "mag_and_phase"; "real"; "imag"; "mag"; "phase"]%string.

(** Lines 78-83 and 183-188. *)
Definition complex_type_of (complex_plot_type : string) : string :=
  if String.eqb complex_plot_type "real" || String.eqb complex_plot_type "imag"
  then "real_and_imag"%string
  else if String.eqb complex_plot_type "mag"
          || String.eqb complex_plot_type "phase"
  then "mag_and_phase"%string
  else complex_plot_type.

Definition no_imaginary_part : fstr := [Lit "the dataset had no imaginary part"].

(** Lines 101-107 and 207-213, the same text in both functions:
      if complex_plot_type == 'real' or complex_plot_type == 'mag':
          dataset = [dataset[0]]
      elif complex_plot_type == 'imag' or complex_plot_type == 'phase':
          try:
              dataset = [dataset[1]]
          except ValueError:
              print('the dataset had no imaginary part')
    The result is the binding of [dataset] afterwards. *)
Definition select_component (complex_plot_type : string)
  (dataset : list plot_data) : PAct (list plot_data) :=
  if String.eqb complex_plot_type "real" || String.eqb complex_plot_type "mag"
  then d0 <- index dataset 0 ;; ret [d0]
  else if String.eqb complex_plot_type "imag"
          || String.eqb complex_plot_type "phase"
  then try_except
         (d1 <- index dataset 1 ;; ret [d1])
         ValueError
         (emit (Print no_imaginary_part) ;; ret dataset)
  else ret dataset.

(** [zip(dataset, axeslist)]: an Axes object is not iterable. *)
Definition zip2 (dataset : list plot_data) (axeslist : axes_obj)
  : PAct (list (plot_data * nat)) :=
  match axeslist with
  | OneAxes _ => raise TypeError
  | AxesArray axs => ret (combine dataset axs)
  end.

(** [zip(dataset, axeslist, colorbars)]. *)
Definition zip3 (dataset : list plot_data) (axeslist : axes_obj)
  (colorbars : list (option nat))
  : PAct (list (plot_data * nat * option nat)) :=
  match axeslist with
  | OneAxes _ => raise TypeError
  | AxesArray axs => ret (combine (combine dataset axs) colorbars)
  end.

Definition title_of (dat : dataset_info) : fstr :=
  [Lit "[ #"; Num (inject_Z (Z.of_nat (_run_id dat))); Lit ": ";
   Str (name dat); Lit " - "; Str (run_timestamp dat); Lit " ]"].

(** Lines 66-97 and 172-202, the same in both functions up to the wording
    of an error message: argument checks, loading and pre-parsing. *)
Definition load_preparsed (E : env) (id : ident) (var : string)
  (complex_plot_type complex_plot_phase : string)
  : PAct (fstr * list plot_data) :=
  if negb (str_in complex_plot_type complex_plot_types) then raise ValueError
  else if negb (str_in complex_plot_phase ["radians"; "degrees"]%string)
  then raise ValueError
  else
    let degrees := String.eqb complex_plot_phase "degrees" in
    let complex_type := complex_type_of complex_plot_type in
    dat <- lift (get_dataset E id) ;;
    let title := title_of dat in
    variables <- lift (list_parameters E id) ;;
    if negb (str_in var variables) then raise ValueError
    else
      dataset <- lift (get_data_by_paramname E dat var) ;;
      dataset <- lift (_complex_to_real_preparser E [dataset] complex_type
                         degrees) ;;
      ret (title, dataset).

Definition plot_dataset_1D (E : env) (id : ident) (var : string)
  (rescale_axes : bool) (multiply_by : Q * Q)
  (complex_plot_type complex_plot_phase : string) (size : Q) : PAct pyval :=
  '(title, dataset) <- load_preparsed E id var complex_plot_type
                         complex_plot_phase ;;
  d0 <- index dataset 0 ;;
  a0 <- index d0 0 ;;
  let x := axis_name a0 in
  dataset <- select_component complex_plot_type dataset ;;
  let nplots := List.length dataset in
  emit (Print [Lit "plot_dataset_1D:"; Newline; Lit "X_axis: "; Str x; Tab;
               Lit " Y_axis: "; Str var]) ;;
  let figsize := (size, 0.7 * size * inject_Z (Z.of_nat nplots)) in
  emit (Subplots nplots figsize) ;;
  axeslist <- lift (subplots E nplots figsize) ;;
  pairs <- zip2 dataset axeslist ;;
  for_each pairs (fun '(data, ax) =>
    _ <- index data 0 ;;
    _ <- index data 1 ;;
    emit (Draw1D ax data rescale_axes title) ;;
    lift (draw_1D E ax data)) ;;
  ret PyNone.

Definition plot_dataset_2D (E : env) (id : ident) (var : string)
  (rescale_axes : bool) (multiply_by : Q * Q * Q)
  (complex_plot_type complex_plot_phase : string) (size : Q) : PAct pyval :=
  '(title, dataset) <- load_preparsed E id var complex_plot_type
                         complex_plot_phase ;;
  d0 <- index dataset 0 ;;
  a0 <- index d0 0 ;;
  let x := axis_name a0 in
  a1 <- index d0 1 ;;
  let y := axis_name a1 in
  dataset <- select_component complex_plot_type dataset ;;
  let nplots := List.length dataset in
  emit (Print [Lit "plot_dataset_2D:"; Newline; Lit "X_axis: "; Str x; Tab;
               Lit " Y_axis: "; Str y; Tab; Lit " Z_axis: "; Str var]) ;;
  let figsize := (size, 0.7 * size * inject_Z (Z.of_nat nplots)) in
  emit (Subplots nplots figsize) ;;
  axeslist <- lift (subplots E nplots figsize) ;;
  let colorbars := repeat (@None nat) nplots in
  triples <- zip3 dataset axeslist colorbars ;;
  for_each triples (fun '(data, ax, colorbar) =>
    _ <- index data 0 ;;
    _ <- index data 1 ;;
    _ <- index data 2 ;;
    emit (Draw2D ax data multiply_by rescale_axes title) ;;
    lift (draw_2D E ax data)) ;;
  ret (PyPair axeslist colorbars).

(** An event other than the print of the 'no imaginary part' message. *)
Definition not_the_message (e : event) : Prop := e <> Print no_imaginary_part.

(** Collaborators for worked examples.  [plt.subplots(n)] gives one Axes
    object for [n = 1], an array of [n] of them for larger [n], and refuses
    [n = 0]. *)
Definition demo_info : dataset_info :=
  {| _run_id := 7; name := "gate map test";
     run_timestamp := "2021-03-01 12:00:00" |}.

Definition demo_axis (n : string) : axis_data :=
  {| axis_name := n; data := [0; 1]; shape := [2%nat] |}.

Definition demo_panel (z : string) : plot_data :=
  [demo_axis "keithley_smua_volt"; demo_axis "keithley_smub_volt";
   demo_axis z].

Definition demo_subplots (n : nat) (figsize : Q * Q) : res axes_obj :=
  match n with
  | O => Raised ValueError
  | 1%nat => Returned (OneAxes 0)
  | _ => Returned (AxesArray (seq 0 n))
  end.

Definition demo_env (preparsed : list plot_data) : env :=
  {| get_dataset := fun _ => Returned demo_info;
     list_parameters := fun _ => Returned ["R"%string];
     get_data_by_paramname := fun _ _ => Returned (Raw 0);
     _complex_to_real_preparser := fun _ _ _ => Returned preparsed;
     subplots := demo_subplots;
     draw_1D := fun _ _ => Returned tt;
     draw_2D := fun _ _ => Returned tt |}.

(** A real-valued variable: the pre-parser gives one panel. *)
Definition real_env : env := demo_env [demo_panel "R"].

(** A complex-valued variable: the pre-parser gives two panels. *)
Definition complex_env : env :=
  demo_env [demo_panel "R_mag"; demo_panel "R_phase"].

End Plot.

(** ** Vocabulary for the statements about [_go_to] and [gate_map] *)

Module Trace.

Import DoubleGateMap.

(** Events of one pass through the loop body of [_go_to] at setpoint [v]:
    the write, the read-back and the inter-step delay ... *)
Definition approach_events (channel : chan) (v : Q) : list event :=
  [VoltSet channel v; CurrGet channel; Sleep 0.1].

(** ... and the read made by the threshold check, when there is one. *)
Definition check_events (channel : chan) (threshold : option Q) : list event :=
  if truthy threshold then [CurrGet channel] else [].

Definition step_events (channel : chan) (threshold : option Q) (v : Q)
  : list event :=
  approach_events channel v ++ check_events channel threshold.

Definition steps_events (channel : chan) (threshold : option Q)
  (vs : list Q) : list event :=
  flat_map (step_events channel threshold) vs.

(** The current the threshold check reads at setpoint [v], when the loop
    body is entered with history [h]. *)
Definition check_reading (L : lab) (channel : chan) (h : list event) (v : Q)
  : Q :=
  curr_of L channel (h ++ approach_events channel v).

(** Whether the threshold check leaves the loop at setpoint [v]. *)
Definition aborts (L : lab) (channel : chan) (threshold : option Q)
  (h : list event) (v : Q) : bool :=
  match threshold with
  | Some t => negb (Qeq_bool t 0) && Qgtb (check_reading L channel h v) t
  | None => false
  end.

(** The setpoints the loop goes through when it is entered with history
    [h]: the array up to and including the first setpoint at which the
    check leaves the loop. *)
Fixpoint visited (L : lab) (channel : chan) (threshold : option Q)
  (h : list event) (array : list Q) : list Q :=
  match array with
  | [] => []
  | v :: rest =>
      if aborts L channel threshold h v then [v]
      else v :: visited L channel threshold
                  (h ++ step_events channel threshold v) rest
  end.

(** The events of a whole call of [_go_to] that visits the setpoints [vs]. *)
Definition go_to_events (channel : chan) (threshold : option Q)
  (vs : list Q) : list event :=
  [Sleep 0.5] ++ steps_events channel threshold vs ++ [Sleep 0.5].

(** The setpoints written to [channel], in order. *)
Fixpoint writes (channel : chan) (tr : list event) : list Q :=
  match tr with
  | [] => []
  | VoltSet c v :: tr' =>
      if chan_eqb c channel then v :: writes channel tr'
      else writes channel tr'
  | _ :: tr' => writes channel tr'
  end.

(** The value [channel] holds after [tr]: the last setpoint written. *)
Definition last_write (channel : chan) (tr : list event) : option Q :=
  last (map Some (writes channel tr)) None.

(** The events that move something: voltage writes. *)
Definition is_motion (e : event) : bool :=
  match e with
  | VoltSet _ _ => true
  | _ => false
  end.

(** The station has a component under [name]. *)
Definition holds (station : Station) (name : string) : Prop :=
  In name (map fst (components station)).

(** The events a stepper working on [channel] causes. *)
Definition stepper_event (channel : chan) (e : event) : Prop :=
  match e with
  | Sleep _ => True
  | VoltSet c _ | CurrGet c => c = channel
  | _ => False
  end.

End Trace.

(** ** Laboratories and stations for worked examples *)

Module Scenarios.

Import DoubleGateMap Trace.

(** A laboratory whose current reading is a function of the voltage last
    written to the channel ([rest] before any write), with the array
    generator of the specification, and where [sweep2d] hands back run 1. *)
Definition held_volt (rest : Q) (channel : chan) (h : list event) : Q :=
  last (writes channel h) rest.

Definition response_lab (rest : Q) (response : Q -> Q) : lab :=
  {| volt_of := held_volt rest;
     curr_of := fun c h => response (held_volt rest c h);
     generate_1D_sweep_array := spec_sweep_array;
     sweep2d := fun _ _ => Returned (RunHandle 1) |}.

(** The scenario of the specification: the current is 2.0 from the setpoint
    1.0 on. *)
Definition scenario_lab : lab :=
  response_lab 0 (fun v => if Qle_bool 1.0 v then 2.0 else 0).

(** A leakage current of -2.0 at every setpoint. *)
Definition negative_lab : lab := response_lab 0 (fun _ => - 2.0).

(** A current of 2.0 at every setpoint. *)
Definition leaking_lab : lab := response_lab 0 (fun _ => 2.0).

(** No current at all. *)
Definition quiet_lab : lab := response_lab 0 (fun _ => 0).

(** Goes through the ways of writing a given list as [p1 ++ u :: p2]. *)
Ltac each_setpoint E p1 :=
  repeat (destruct p1 as [|? p1];
          [ injection E as E _; subst; vm_compute; discriminate
          | injection E as _ E ]);
  destruct p1; discriminate E.

(** Stations like those [station_triton] builds: the Keithley, the Triton,
    lock-ins, and the [current_range] parameter, which is no instrument. *)
Definition instrument_class (qualified : string) (between : list string)
  : pyclass :=
  {| qualname := qualified; ancestors := between ++ [Instrument_name] |}.

Definition keithley : component :=
  {| class_of :=
       instrument_class
         "qcodes.instrument_drivers.tektronix.Keithley_2600_channels.Keithley_2600"
         [] |}.

Definition triton : component :=
  {| class_of :=
       instrument_class "qcodes.instrument_drivers.oxford.triton.Triton"
         ["qcodes.instrument.ip.IPInstrument"%string] |}.

Definition mfli : component :=
  {| class_of :=
       instrument_class MFLI_name
         ["zhinst.qcodes.base.ZIBaseInstrument"%string] |}.

(** A driver that derives from MFLI. *)
Definition mfli_subclass : component :=
  {| class_of :=
       instrument_class "labdrivers.PatchedMFLI"
         [MFLI_name; "zhinst.qcodes.base.ZIBaseInstrument"%string] |}.

Definition current_range : component :=
  {| class_of :=
       {| qualname := "qcodes.instrument.parameter.Parameter";
          ancestors := ["qcodes.instrument.parameter._BaseParameter"%string] |} |}.

Definition bare_station : Station :=
  {| components :=
       [("keithley", keithley); ("triton", triton);
        ("current_range", current_range)]%string |}.

Definition lockin_station : Station :=
  {| components :=
       [("keithley", keithley); ("triton", triton);
        ("mf1", mfli); ("mf2", mfli); ("mf3", mfli_subclass);
        ("current_range", current_range)]%string |}.

(** A station that lacks the Triton, and one that lacks the Keithley. *)
Definition no_triton_station : Station :=
  {| components :=
       [("keithley", keithley); ("mf1", mfli);
        ("current_range", current_range)]%string |}.

Definition no_keithley_station : Station :=
  {| components :=
       [("triton", triton); ("mf1", mfli);
        ("current_range", current_range)]%string |}.

(** The call of [sweep2d] in the worked example of [gate_map]. *)
Definition example_call : sweep2d_call :=
  {| param_set1 := Volt smua; array1 := [0.4; 1]; delay1 := 0.1;
     param_set2 := Volt smub; array2 := [0.2; 3]; delay2 := 0.1;
     param_meas := [DemodSample "mf1" 0; DemodSample "mf2" 0;
                    TritonT8; TritonBz; Curr smua; Curr smub];
     Lab.exp := None;
     measurement_name := [Lit "gate map "; OptStr (Some "test"%string)];
     use_threads := true;
     Lab.measure_retrace := Some true |}.

End Scenarios.



(** ** Further vocabulary: costs of a run, lock-in settings, panels *)

Module Measures.

Import DoubleGateMap Trace Scenarios Lockin.

(** Seconds spent in [time.sleep] along a trace. *)
Fixpoint slept (tr : list event) : Q :=
  match tr with
  | [] => 0
  | Sleep s :: tr' => s + slept tr'
  | _ :: tr' => slept tr'
  end.

(** Number of times the current of [channel] is read along a trace. *)
Fixpoint reads (channel : chan) (tr : list event) : nat :=
  match tr with
  | [] => O
  | CurrGet c :: tr' =>
      if chan_eqb c channel then S (reads channel tr') else reads channel tr'
  | _ :: tr' => reads channel tr'
  end.

(** The settings written to lock-in [lockin] along a trace, as pairs of
    node and value, in order. *)
Fixpoint settings_of (lockin : string) (tr : list event)
  : list (string * setting) :=
  match tr with
  | [] => []
  | LockinSet l node value :: tr' =>
      if String.eqb l lockin then (node, value) :: settings_of lockin tr'
      else settings_of lockin tr'
  | _ :: tr' => settings_of lockin tr'
  end.

(** The value a node of a lock-in holds after a list of settings: the one
    written last. *)
Fixpoint final_setting (node : string) (written : list (string * setting))
  : option setting :=
  match written with
  | [] => None
  | (n, value) :: rest =>
      match final_setting node rest with
      | Some later => Some later
      | None => if String.eqb n node then Some value else None
      end
  end.

(** The settings of lines 20-30 of lockin.py, for the lock-in that sources
    the reference signal. *)
Definition reference_settings (freq : Q) : list (string * setting) :=
  [("oscs[0].freq", SNum freq);
   ("sigouts[0].on", SNum 1);
   ("sigouts[0].range", SNum 10);
   ("sigouts[0].amplitudes0", SSqrt2);
   ("sigouts[0].enables0", SNum 1);
   ("sigouts[0].enables1", SNum 0);
   ("sigouts[0].imp50", SNum 0);
   ("sigouts[0].offset", SNum 0);
   ("sigouts[0].diff", SNum 0);
   ("triggers.out[0].source", SNum 52);
   ("triggers.out[1].source", SNum 1)]%string.

(** The settings of lines 33-37, for a lock-in that follows the reference. *)
Definition sync_settings : list (string * setting) :=
  [("demods[1].adcselect", SNum 3);
   ("extrefs[0].enable", SNum 1);
   ("sigouts[0].on", SNum 0);
   ("triggers.out[0].source", SNum 0);
   ("triggers.out[1].source", SNum 0)]%string.

(** The settings of lines 40-54, for every lock-in. *)
Definition input_settings : list (string * setting) :=
  [("demods[0].oscselect", SNum 0);
   ("demods[0].harmonic", SNum 1);
   ("demods[0].phaseshift", SNum 0);
   ("demods[0].sinc", SNum 1);
   ("demods[0].timeconstant", SNum 0.1);
   ("demods[0].order", SNum 8);
   ("sigins[0].ac", SNum 1);
   ("sigins[0].imp50", SNum 0);
   ("sigins[0].diff", SNum 1);
   ("sigins[0].float", SNum 0);
   ("sigins[0].scaling", SNum 1);
   ("sigins[0].range", SNum 3e-3);
   ("sigouts[0].range", SNum 10)]%string.

(** Writing a list of settings to one lock-in. *)
Definition set_all (lockin : string) (l : list (string * setting))
  : list event :=
  map (fun s => LockinSet lockin (fst s) (snd s)) l.

(** The line printed at the end of [initialise_lockin]. *)
Definition lockin_summary (l0 : string) (freq : Q) (others : list string)
  : event :=
  Print [Lit "Lock-in "; Str l0;
         Lit " sources the reference signal with f="; Num freq;
         Lit "Hz"; Newline; Lit "Output voltage: 1V"; Newline;
         Lit "Lock-ins "; StrList others;
         Lit " are in sync. You can start measuring."].

Definition is_lockin_set (e : event) : bool :=
  match e with
  | LockinSet _ _ _ => true
  | _ => false
  end.

(** A laboratory whose array generator gives back an empty array. *)
Definition empty_array_lab : lab :=
  {| volt_of := held_volt 0;
     curr_of := fun _ _ => 0;
     generate_1D_sweep_array := fun _ _ _ => Returned [];
     sweep2d := fun _ _ => Returned (RunHandle 1) |}.

(** A station with a single lock-in. *)
Definition single_lockin_station : Station :=
  {| components :=
       [("keithley", keithley); ("triton", triton);
        ("mf1", mfli); ("current_range", current_range)]%string |}.

End Measures.

(** ** Facts about the monad *)

Section MonadFacts.

Context {Ev : Type}.

Lemma bind_ret {A B} (a : A) (k : A -> M Ev B) (h : list Ev) :
  bind (ret a) k h = k a h.
Proof. reflexivity. Qed.

Lemma bind_emit {B} (e : Ev) (k : unit -> M Ev B) (h : list Ev) :
  bind (emit e) k h = k tt (h ++ [e]).
Proof. reflexivity. Qed.

Lemma bind_raise {A B} (e : exn) (k : A -> M Ev B) (h : list Ev) :
  bind (raise e) k h = (Raised e, h).
Proof. reflexivity. Qed.

Lemma bind_lift_returned {A B} (r : res A) (a : A) (k : A -> M Ev B)
  (h : list Ev) :
  r = Returned a -> bind (lift r) k h = k a h.
Proof. intros ->. reflexivity. Qed.

Lemma bind_assoc {A B C} (c : M Ev A) (k : A -> M Ev B) (k' : B -> M Ev C)
  (h : list Ev) :
  bind (bind c k) k' h = bind c (fun a => bind (k a) k') h.
Proof.
  unfold bind. destruct (c h) as [[a|e] h']; reflexivity.
Qed.

End MonadFacts.

(** ** Facts about lists *)

Lemma last_cons {A} (l : list A) : forall a d : A, last (a :: l) d = last l a.
Proof.
  induction l as [|b l IH]; intros a d.
  - reflexivity.
  - change (last (a :: b :: l) d) with (last (b :: l) d).
    now rewrite !IH.
Qed.

(** ** Facts about [_go_to] *)

Section GoToFacts.

Import DoubleGateMap Trace Scenarios.

Variable L : lab.
Variable channel : chan.

Lemma curr_get_run {B} (k : Q -> Act B) (h : list event) :
  bind (curr_get L channel) k h
  = k (curr_of L channel h) (h ++ [CurrGet channel]).
Proof. reflexivity. Qed.

Lemma volt_get_run {B} (c : chan) (k : Q -> Act B) (h : list event) :
  bind (volt_get L c) k h = k (volt_of L c h) (h ++ [VoltGet c]).
Proof. reflexivity. Qed.

(** The check reads the current once when the threshold is true, and then
    decides as [aborts] says. *)
Lemma threshold_exceeded_run (threshold : option Q) (h : list event) (v : Q) :
  threshold_exceeded L channel threshold (h ++ approach_events channel v)
  = (Returned (aborts L channel threshold h v),
     h ++ step_events channel threshold v).
Proof.
  unfold threshold_exceeded, aborts, step_events, check_events, truthy,
    check_reading.
  destruct threshold as [t|]; [destruct (Qeq_bool t 0)|]; cbn [negb andb];
    rewrite ?curr_get_run; unfold ret;
    rewrite <- ?app_assoc, ?app_nil_r; reflexivity.
Qed.

Lemma go_to_loop_visits (threshold : option Q) (array : list Q) :
  forall (v_bound : option Q) (h : list event),
    go_to_loop L channel threshold array v_bound h
    = (Returned (last (map Some (visited L channel threshold h array)) v_bound),
       h ++ steps_events channel threshold
              (visited L channel threshold h array)).
Proof.
  induction array as [|v rest IH]; intros v_bound h.
  - simpl. unfold ret. now rewrite app_nil_r.
  - cbn [go_to_loop visited].
    unfold volt_set, sleep. rewrite bind_emit, curr_get_run, bind_emit.
    replace (((h ++ [VoltSet channel v]) ++ [CurrGet channel]) ++ [Sleep 0.1])
      with (h ++ approach_events channel v)
      by (unfold approach_events; now rewrite <- !app_assoc).
    unfold bind at 1. rewrite threshold_exceeded_run.
    destruct (aborts L channel threshold h v).
    + unfold ret, steps_events. cbn [flat_map map last]. now rewrite app_nil_r.
    + rewrite IH. unfold steps_events. cbn [flat_map].
      rewrite <- app_assoc. f_equal.
      cbn [map]. now rewrite last_cons.
Qed.

End GoToFacts.

Section GoToRun.

Import DoubleGateMap Trace Scenarios.

Variable L : lab.
Variable channel : chan.
Variable threshold : option Q.

Lemma go_to_run (v0 v1 : Q) (desc : option fstr) (array : list Q)
  (h : list event) :
  generate_1D_sweep_array L v0 v1 2e-1 = Returned array ->
  _go_to L v0 v1 channel desc threshold h
  = (match last (map Some (visited L channel threshold (h ++ [Sleep 0.5]) array))
             None with
     | Some v => Returned v
     | None => Raised UnboundLocalError
     end,
     h ++ go_to_events channel threshold
            (visited L channel threshold (h ++ [Sleep 0.5]) array)).
Proof.
  intros Hgen. unfold _go_to.
  rewrite (bind_lift_returned _ _ Hgen).
  unfold sleep. rewrite bind_emit.
  unfold bind at 1. rewrite go_to_loop_visits. rewrite bind_emit.
  unfold go_to_events. rewrite <- !app_assoc.
  destruct (last _ None); reflexivity.
Qed.

Lemma go_to_generator_raises (v0 v1 : Q) (desc : option fstr) (e : exn)
  (h : list event) :
  generate_1D_sweep_array L v0 v1 2e-1 = Raised e ->
  _go_to L v0 v1 channel desc threshold h = (Raised e, h).
Proof.
  intros Hgen. unfold _go_to, bind, lift. now rewrite Hgen.
Qed.

(** The loop goes through a prefix of the array. *)
Lemma visited_prefix (array : list Q) :
  forall h, exists rest, array = visited L channel threshold h array ++ rest.
Proof.
  induction array as [|v tl IH]; intros h.
  - now exists [].
  - cbn [visited]. destruct (aborts L channel threshold h v).
    + now exists tl.
    + destruct (IH (h ++ step_events channel threshold v)) as [rest Hrest].
      exists rest. cbn [app]. now rewrite <- Hrest.
Qed.

Lemma visited_nonempty (array : list Q) (h : list event) :
  array <> [] -> visited L channel threshold h array <> [].
Proof.
  destruct array as [|v tl]; [congruence|]. intros _. cbn [visited].
  destruct (aborts L channel threshold h v); discriminate.
Qed.

(** Along a stretch where the check never fires the loop just goes on. *)
Lemma visited_app (pre : list Q) :
  forall (h : list event) (rest : list Q),
    (forall p1 u p2, pre = p1 ++ u :: p2 ->
       aborts L channel threshold (h ++ steps_events channel threshold p1) u
       = false) ->
    visited L channel threshold h (pre ++ rest)
    = pre ++ visited L channel threshold
               (h ++ steps_events channel threshold pre) rest.
Proof.
  induction pre as [|u pre IH]; intros h rest Hquiet.
  - cbn [app steps_events flat_map]. now rewrite app_nil_r.
  - cbn [app visited].
    pose proof (Hquiet [] u pre eq_refl) as H0.
    cbn [steps_events flat_map] in H0. rewrite app_nil_r in H0. rewrite H0.
    rewrite IH.
    + unfold steps_events. cbn [flat_map]. now rewrite app_assoc.
    + intros p1 w p2 ->.
      specialize (Hquiet (u :: p1) w p2 eq_refl).
      unfold steps_events in *. cbn [flat_map] in Hquiet.
      now rewrite app_assoc in Hquiet.
Qed.

(** Either the loop runs to the end of the array, or the check fired at
    the last setpoint it went through. *)
Lemma visited_complete_or_aborted (array : list Q) :
  forall h,
    visited L channel threshold h array = array
    \/ exists pre v,
         visited L channel threshold h array = pre ++ [v]
         /\ aborts L channel threshold
              (h ++ steps_events channel threshold pre) v = true.
Proof.
  induction array as [|v tl IH]; intros h.
  - now left.
  - cbn [visited]. destruct (aborts L channel threshold h v) eqn:Hab.
    + right. exists [], v. cbn [app steps_events flat_map].
      now rewrite app_nil_r.
    + destruct (IH (h ++ step_events channel threshold v))
        as [Hall | (pre & w & Hv & Hw)].
      * left. now rewrite Hall.
      * right. exists (v :: pre), w. rewrite Hv. split; [reflexivity|].
        unfold steps_events in *. cbn [flat_map]. now rewrite app_assoc.
Qed.

Lemma aborts_falsy (h : list event) (v : Q) :
  truthy threshold = false -> aborts L channel threshold h v = false.
Proof.
  unfold truthy, aborts. destruct threshold as [t|]; [|reflexivity].
  now intros ->.
Qed.

(** Without a true threshold the loop goes through the whole array. *)
Lemma visited_falsy (array : list Q) :
  truthy threshold = false ->
  forall h, visited L channel threshold h array = array.
Proof.
  intros Hf. induction array as [|v tl IH]; intros h; [reflexivity|].
  cbn [visited]. rewrite aborts_falsy by assumption. now rewrite IH.
Qed.

Lemma writes_app (c : chan) (tr1 tr2 : list event) :
  writes c (tr1 ++ tr2) = writes c tr1 ++ writes c tr2.
Proof.
  induction tr1 as [|e tr1 IH]; [reflexivity|].
  destruct e; cbn [app writes]; try assumption.
  destruct (chan_eqb c0 c); cbn [app]; now rewrite IH.
Qed.

Lemma chan_eqb_refl (c : chan) : chan_eqb c c = true.
Proof. now destruct c. Qed.

Lemma writes_check_events (c : chan) :
  writes c (check_events channel threshold) = [].
Proof. unfold check_events. now destruct (truthy threshold). Qed.

(** The setpoints written by a run through [vs] are [vs], all on the
    stepper's own channel. *)
Lemma writes_steps_events_on (c : chan) (vs : list Q) :
  writes c (steps_events channel threshold vs)
  = if chan_eqb channel c then vs else [].
Proof.
  induction vs as [|v vs IH]; [now destruct (chan_eqb channel c)|].
  unfold steps_events in *. cbn [flat_map]. rewrite writes_app, IH.
  unfold step_events. rewrite writes_app, writes_check_events.
  cbn [approach_events writes]. now destruct (chan_eqb channel c).
Qed.

Lemma writes_go_to_events_on (c : chan) (vs : list Q) :
  writes c (go_to_events channel threshold vs)
  = if chan_eqb channel c then vs else [].
Proof.
  unfold go_to_events. rewrite !writes_app, writes_steps_events_on.
  cbn [writes]. now rewrite app_nil_r.
Qed.

Lemma writes_go_to_events (vs : list Q) :
  writes channel (go_to_events channel threshold vs) = vs.
Proof. now rewrite writes_go_to_events_on, chan_eqb_refl. Qed.

Lemma last_write_go_to_events (vs : list Q) :
  last_write channel (go_to_events channel threshold vs)
  = last (map Some vs) None.
Proof. unfold last_write. now rewrite writes_go_to_events. Qed.

End GoToRun.

Lemma last_map_some_app {A} (pre : list A) (a : A) (d : option A) :
  last (map Some (pre ++ [a])) d = Some a.
Proof. rewrite map_app. cbn [map]. apply last_last. Qed.

Lemma last_map_some_in {A} (l : list A) (a : A) :
  last (map Some l) None = Some a -> In a l.
Proof.
  destruct l as [|b l] using rev_ind; [discriminate|].
  rewrite last_map_some_app. intros [= ->].
  apply in_or_app. right. now left.
Qed.

Lemma last_map_some_nonempty {A} (l : list A) :
  l <> [] -> exists a, last (map Some l) None = Some a.
Proof.
  destruct l as [|b l] using rev_ind; [congruence|]. intros _.
  exists b. apply last_map_some_app.
Qed.

(** ** The Position Stepper [_go_to] *)

Section GoToClaims.

Import DoubleGateMap Trace Scenarios.

Lemma Qgtb_spec (a b : Q) : Qgtb a b = true <-> b < a.
Proof.
  unfold Qgtb. rewrite Qgt_alt. destruct (a ?= b); intuition congruence.
Qed.

Lemma aborts_some (L : lab) (channel : chan) (t : Q) (h : list event) (v : Q) :
  ~ t == 0 ->
  aborts L channel (Some t) h v = true <-> t < check_reading L channel h v.
Proof.
  intros Ht. unfold aborts.
  destruct (Qeq_bool t 0) eqn:E.
  - apply Qeq_bool_iff in E. contradiction.
  - cbn [negb andb]. apply Qgtb_spec.
Qed.

Lemma truthy_zero (t : Q) : t == 0 -> truthy (Some t) = false.
Proof.
  intros Ht. unfold truthy. apply Qeq_bool_iff in Ht. now rewrite Ht.
Qed.

(** C1 (as amended).  With a threshold [t] other than zero: if the current
    read by the threshold check is greater than [t] (as a signed number) at
    setpoint [v] of the array, and at no setpoint before it, then [_go_to]
    writes the setpoints up to [v] and none after it, raises nothing, and
    returns [v], the setpoint last written, which the channel keeps. *)
Theorem go_to_threshold_abort (L : lab) (v0 v1 : Q) (channel : chan)
  (desc : option fstr) (t : Q) (pre : list Q) (v : Q) (post : list Q)
  (h : list event) :
  generate_1D_sweep_array L v0 v1 2e-1 = Returned (pre ++ v :: post) ->
  ~ t == 0 ->
  (forall p1 u p2, pre = p1 ++ u :: p2 ->
     ~ t < check_reading L channel
             (h ++ [Sleep 0.5] ++ steps_events channel (Some t) p1) u) ->
  t < check_reading L channel
        (h ++ [Sleep 0.5] ++ steps_events channel (Some t) pre) v ->
  exists tr,
    _go_to L v0 v1 channel desc (Some t) h = (Returned v, h ++ tr)
    /\ writes channel tr = pre ++ [v]
    /\ last_write channel tr = Some v.
Proof.
  intros Hgen Ht Hquiet Hfire.
  assert (Hvis : visited L channel (Some t) (h ++ [Sleep 0.5]) (pre ++ v :: post)
                 = pre ++ [v]).
  { rewrite visited_app.
    - cbn [visited].
      replace (aborts _ _ _ _ v) with true; [reflexivity|].
      symmetry. apply aborts_some; [assumption|].
      now rewrite <- app_assoc.
    - intros p1 u p2 Hpre.
      destruct (aborts L channel (Some t)
                  ((h ++ [Sleep 0.5]) ++ steps_events channel (Some t) p1) u)
        eqn:E; [|reflexivity].
      apply aborts_some in E; [|assumption].
      rewrite <- app_assoc in E. now apply (Hquiet p1 u p2 Hpre) in E. }
  exists (go_to_events channel (Some t) (pre ++ [v])).
  rewrite (go_to_run L channel (Some t) v0 v1 desc h Hgen), Hvis.
  rewrite last_map_some_app, writes_go_to_events, last_write_go_to_events,
    last_map_some_app.
  repeat split.
Qed.

(** C2.  Whenever the generated array is not empty, [_go_to] returns; the
    value returned is the setpoint last written to the channel and is an
    element of the array.  When no threshold is configured (also when it is
    0.0) and the array ends at the target [v1], as the generator promises,
    the value returned, which is the channel's final value, is [v1]. *)
Theorem go_to_returns_last_write (L : lab) (v0 v1 : Q) (channel : chan)
  (desc : option fstr) (threshold : option Q) (array : list Q)
  (h : list event) :
  generate_1D_sweep_array L v0 v1 2e-1 = Returned array ->
  array <> [] ->
  exists r tr,
    _go_to L v0 v1 channel desc threshold h = (Returned r, h ++ tr)
    /\ last_write channel tr = Some r
    /\ In r array
    /\ (truthy threshold = false ->
        forall pre, array = pre ++ [v1] -> r = v1).
Proof.
  intros Hgen Hne.
  set (vs := visited L channel threshold (h ++ [Sleep 0.5]) array).
  destruct (last_map_some_nonempty (l := vs)) as [r Hr].
  { now apply visited_nonempty. }
  exists r, (go_to_events channel threshold vs).
  rewrite (go_to_run L channel threshold v0 v1 desc h Hgen).
  fold vs. rewrite Hr, last_write_go_to_events, Hr.
  repeat split.
  - destruct (visited_prefix L channel threshold array (h ++ [Sleep 0.5]))
      as [rest Hrest].
    rewrite Hrest. apply in_or_app. left. now apply last_map_some_in.
  - intros Hf pre Harr. subst vs.
    rewrite visited_falsy, Harr, last_map_some_app in Hr by assumption.
    congruence.
Qed.

(** C5.  The events of a call of [_go_to]: the settle delay of 0.5 s; then,
    for each setpoint the loop goes through, in the order of the array, the
    write of the setpoint, a read of the current, the inter-step delay of
    0.1 s and the threshold check (which reads the current once more when
    the threshold is true); then the settle delay again.  The loop goes
    through the whole array, or through the part of it that ends with the
    setpoint at which the check fired. *)
Theorem go_to_event_sequence (L : lab) (v0 v1 : Q) (channel : chan)
  (desc : option fstr) (threshold : option Q) (array : list Q)
  (h : list event) :
  generate_1D_sweep_array L v0 v1 2e-1 = Returned array ->
  exists vs rest,
    array = vs ++ rest
    /\ snd (_go_to L v0 v1 channel desc threshold h)
       = h ++ [Sleep 0.5]
           ++ flat_map
                (fun v => [VoltSet channel v; CurrGet channel; Sleep 0.1]
                          ++ (if truthy threshold then [CurrGet channel]
                              else []))
                vs
           ++ [Sleep 0.5]
    /\ (rest = []
        \/ exists pre v,
             vs = pre ++ [v]
             /\ aborts L channel threshold
                  (h ++ [Sleep 0.5] ++ steps_events channel threshold pre) v
                = true).
Proof.
  intros Hgen.
  set (vs := visited L channel threshold (h ++ [Sleep 0.5]) array).
  destruct (visited_prefix L channel threshold array (h ++ [Sleep 0.5]))
    as [rest Hrest].
  fold vs in Hrest.
  exists vs, rest. split; [assumption|]. split.
  - rewrite (go_to_run L channel threshold v0 v1 desc h Hgen). reflexivity.
  - destruct (visited_complete_or_aborted L channel threshold array
                (h ++ [Sleep 0.5])) as [Hall | (pre & v & Hv & Hab)].
    + left. fold vs in Hall. rewrite Hall in Hrest.
      rewrite <- (app_nil_r array) in Hrest at 1.
      apply app_inv_head in Hrest. now symmetry.
    + right. exists pre, v. split; [assumption|].
      now rewrite <- app_assoc in Hab.
Qed.

(** C8.  With the threshold 0.0 the check never reads the current and
    never leaves the loop: whatever the instrument answers, every element
    of the array is written, in order. *)
Theorem go_to_zero_threshold (L : lab) (v0 v1 : Q) (channel : chan)
  (desc : option fstr) (t : Q) (array : list Q) (h : list event) :
  generate_1D_sweep_array L v0 v1 2e-1 = Returned array ->
  t == 0 ->
  exists tr,
    snd (_go_to L v0 v1 channel desc (Some t) h) = h ++ tr
    /\ tr = [Sleep 0.5]
            ++ flat_map
                 (fun v => [VoltSet channel v; CurrGet channel; Sleep 0.1])
                 array
            ++ [Sleep 0.5]
    /\ writes channel tr = array.
Proof.
  intros Hgen Ht.
  pose proof (truthy_zero Ht) as Hf.
  exists (go_to_events channel (Some t) array).
  rewrite (go_to_run L channel (Some t) v0 v1 desc h Hgen).
  rewrite visited_falsy by assumption.
  split; [reflexivity|split].
  - unfold go_to_events, steps_events, step_events, check_events.
    now rewrite Hf.
  - apply writes_go_to_events.
Qed.

End GoToClaims.

Section GoToScenarios.

Import DoubleGateMap Trace Scenarios.

(** The scenario of the specification: from 0.0 to 2.0 with threshold 1.5,
    the current being 2.0 from the setpoint 1.0 on.  The stepper stops with
    1.0 and writes neither 2.0 nor any other setpoint after 1.0. *)
Lemma go_to_threshold_abort_scenario :
  exists tr,
    _go_to scenario_lab 0.0 2.0 smua None (Some 1.5) []
    = (Returned 1, [] ++ tr)
    /\ writes smua tr = [0; 1 # 5; 2 # 5; 3 # 5; 4 # 5] ++ [1]
    /\ last_write smua tr = Some 1.
Proof.
  apply (@go_to_threshold_abort scenario_lab 0.0 2.0 smua None 1.5
           [0; 1 # 5; 2 # 5; 3 # 5; 4 # 5] 1
           [6 # 5; 7 # 5; 8 # 5; 9 # 5; 2.0] []).
  - vm_compute. reflexivity.
  - vm_compute. discriminate.
  - intros p1 u p2 E. each_setpoint E p1.
  - vm_compute. reflexivity.
Defined.

(** The same run, evaluated. *)
Example go_to_scenario_run :
  _go_to scenario_lab 0.0 2.0 smua None (Some 1.5) []
  = (Returned 1,
     [Sleep 0.5;
      VoltSet smua 0; CurrGet smua; Sleep 0.1; CurrGet smua;
      VoltSet smua (1 # 5); CurrGet smua; Sleep 0.1; CurrGet smua;
      VoltSet smua (2 # 5); CurrGet smua; Sleep 0.1; CurrGet smua;
      VoltSet smua (3 # 5); CurrGet smua; Sleep 0.1; CurrGet smua;
      VoltSet smua (4 # 5); CurrGet smua; Sleep 0.1; CurrGet smua;
      VoltSet smua 1; CurrGet smua; Sleep 0.1; CurrGet smua;
      Sleep 0.5]).
Proof. vm_compute. reflexivity. Qed.

(** C1, as it is stated, fails.  With threshold 1.5 and a current of -2.0
    at every setpoint the magnitude of the current exceeds the threshold at
    the first setpoint already, yet the stepper writes all eleven setpoints
    and returns 2.0: the code compares the signed reading.  With threshold
    0.0 and a current of 2.0 the check is not made at all. *)
Lemma go_to_magnitude_counterexample :
  (1.5 < Qabs (check_reading negative_lab smua [Sleep 0.5] 0)
   /\ _go_to negative_lab 0.0 2.0 smua None (Some 1.5) []
      = (Returned 2.0,
         go_to_events smua (Some 1.5)
           [0; 1 # 5; 2 # 5; 3 # 5; 4 # 5; 1; 6 # 5; 7 # 5; 8 # 5; 9 # 5; 2.0])
   /\ writes smua (snd (_go_to negative_lab 0.0 2.0 smua None (Some 1.5) []))
      <> [0])
  /\ (0.0 < Qabs (check_reading leaking_lab smua [Sleep 0.5] 0)
      /\ writes smua (snd (_go_to leaking_lab 0.0 2.0 smua None (Some 0.0) []))
         = [0; 1 # 5; 2 # 5; 3 # 5; 4 # 5; 1; 6 # 5; 7 # 5; 8 # 5; 9 # 5; 2.0]).
Proof.
  repeat split; try (vm_compute; reflexivity).
  vm_compute. discriminate.
Qed.

Lemma go_to_returns_last_write_example :
  exists r tr,
    _go_to quiet_lab 0.0 1.0 smua None None [] = (Returned r, tr)
    /\ last_write smua tr = Some r
    /\ r = 1.0.
Proof.
  destruct (@go_to_returns_last_write quiet_lab 0.0 1.0 smua None None
              [0; 1 # 5; 2 # 5; 3 # 5; 4 # 5; 1.0] [])
    as (r & tr & Hrun & Hlast & _ & Hend).
  - vm_compute. reflexivity.
  - discriminate.
  - exists r, tr. repeat split; try assumption.
    now apply (Hend eq_refl [0; 1 # 5; 2 # 5; 3 # 5; 4 # 5]).
Defined.

Lemma go_to_event_sequence_example :
  exists vs rest,
    [0; 1 # 5; 2 # 5; 3 # 5; 4 # 5; 1; 6 # 5; 7 # 5; 8 # 5; 9 # 5; 2.0]
    = vs ++ rest
    /\ snd (_go_to scenario_lab 0.0 2.0 smua None (Some 1.5) [])
       = [] ++ [Sleep 0.5]
           ++ flat_map
                (fun v => [VoltSet smua v; CurrGet smua; Sleep 0.1]
                          ++ (if truthy (Some 1.5) then [CurrGet smua]
                              else []))
                vs
           ++ [Sleep 0.5]
    /\ (rest = []
        \/ exists pre v,
             vs = pre ++ [v]
             /\ aborts scenario_lab smua (Some 1.5)
                  ([] ++ [Sleep 0.5] ++ steps_events smua (Some 1.5) pre) v
                = true).
Proof.
  apply (@go_to_event_sequence scenario_lab 0.0 2.0 smua None (Some 1.5)
           [0; 1 # 5; 2 # 5; 3 # 5; 4 # 5; 1; 6 # 5; 7 # 5; 8 # 5; 9 # 5; 2.0]
           []).
  vm_compute. reflexivity.
Defined.

Lemma go_to_zero_threshold_example :
  exists tr,
    snd (_go_to leaking_lab 0.0 0.4 smua None (Some 0.0) []) = [] ++ tr
    /\ tr = [Sleep 0.5]
            ++ flat_map (fun v => [VoltSet smua v; CurrGet smua; Sleep 0.1])
                 [0; 1 # 5; 0.4]
            ++ [Sleep 0.5]
    /\ writes smua tr = [0; 1 # 5; 0.4].
Proof.
  apply (@go_to_zero_threshold leaking_lab 0.0 0.4 smua None 0.0
           [0; 1 # 5; 0.4] []).
  - vm_compute. reflexivity.
  - reflexivity.
Defined.

End GoToScenarios.

(** ** Events a computation can add *)

Section EmitsOnly.

Context {Ev : Type}.
Variable P : Ev -> Prop.

Lemma emits_only_silent {A} (c : M Ev A) :
  (forall h, snd (c h) = h) -> emits_only P c.
Proof.
  intros Hc h. exists []. rewrite Hc, app_nil_r. now split.
Qed.

Lemma emits_only_ret {A} (a : A) : emits_only P (ret a).
Proof. now apply emits_only_silent. Qed.

Lemma emits_only_raise {A} (e : exn) : emits_only P (@raise Ev A e).
Proof. now apply emits_only_silent. Qed.

Lemma emits_only_lift {A} (r : res A) : emits_only P (lift r).
Proof. now apply emits_only_silent. Qed.

Lemma emits_only_history : emits_only P (@history Ev).
Proof. now apply emits_only_silent. Qed.

Lemma emits_only_index {A} (l : list A) (i : nat) : emits_only P (index l i).
Proof.
  apply emits_only_silent. intros h. unfold index.
  now destruct (nth_error l i).
Qed.

Lemma emits_only_emit (e : Ev) : P e -> emits_only P (emit e).
Proof.
  intros He h. exists [e]. split; [reflexivity|]. now constructor.
Qed.

Lemma emits_only_bind {A B} (c : M Ev A) (k : A -> M Ev B) :
  emits_only P c -> (forall a, emits_only P (k a)) -> emits_only P (bind c k).
Proof.
  intros Hc Hk h. destruct (Hc h) as (tr1 & E1 & F1).
  unfold bind. destruct (c h) as [[a|e] h1]; cbn [snd] in *; subst h1.
  - destruct (Hk a (h ++ tr1)) as (tr2 & E2 & F2).
    exists (tr1 ++ tr2). rewrite E2, app_assoc. split; [reflexivity|].
    apply Forall_app. now split.
  - now exists tr1.
Qed.

Lemma emits_only_for_each {A} (l : list A) (body : A -> M Ev unit) :
  (forall a, In a l -> emits_only P (body a)) ->
  emits_only P (for_each l body).
Proof.
  induction l as [|a l IH]; intros Hbody; cbn [for_each].
  - apply emits_only_ret.
  - apply emits_only_bind.
    + apply Hbody. now left.
    + intros _. apply IH. intros b Hb. apply Hbody. now right.
Qed.

(** Reading the property off a run. *)
Lemma emits_only_run {A} (c : M Ev A) (h tr : list Ev) (r : res A) :
  emits_only P c -> c h = (r, h ++ tr) -> Forall P tr.
Proof.
  intros Hc Hrun. destruct (Hc h) as (tr' & E & F).
  rewrite Hrun in E. cbn [snd] in E. apply app_inv_head in E. now subst.
Qed.

End EmitsOnly.

Create HintDb emits discriminated.
#[global] Hint Resolve emits_only_ret emits_only_raise emits_only_lift
  emits_only_history emits_only_index : emits.

(** Takes a chain of [bind]s apart, closes the links that add no event and
    leaves, for each [emit], the property of the event. *)
Ltac emits_chain :=
  repeat match goal with
         | |- emits_only _ (bind _ _) => apply emits_only_bind; [|intros ?]
         | |- emits_only _ (let (_, _) := ?p in _) => destruct p
         | |- emits_only _ (emit _) => apply emits_only_emit
         | |- emits_only _ _ => solve [auto with emits]
         end.

(** ** The Gate-Map Procedure [gate_map] *)

Section GateMapFacts.

Import DoubleGateMap Trace Scenarios.

Lemma bind_ret_r {Ev A} (c : M Ev A) (h : list Ev) :
  bind c (fun a => ret a) h = c h.
Proof. unfold bind, ret. now destruct (c h) as [[a|e] h']. Qed.

Lemma call_sweep2d_run (L : lab) (call : sweep2d_call) (h : list event) :
  call_sweep2d L call h = (sweep2d L call h, h ++ [Sweep2d call]).
Proof. reflexivity. Qed.

(** Without a threshold, a stepper whose array ends at the target goes all
    the way. *)
Lemma go_to_run_no_threshold (L : lab) (v0 v1 : Q) (channel : chan)
  (desc : option fstr) (pre : list Q) (h : list event) :
  generate_1D_sweep_array L v0 v1 2e-1 = Returned (pre ++ [v1]) ->
  _go_to L v0 v1 channel desc None h
  = (Returned v1, h ++ go_to_events channel None (pre ++ [v1])).
Proof.
  intros Hgen. rewrite (go_to_run L channel None v0 v1 desc h Hgen).
  rewrite visited_falsy by reflexivity. now rewrite last_map_some_app.
Qed.

(** The discovery loop keeps, in the order of the dict, the names of the
    entries that are instruments of class MFLI itself. *)
Lemma find_lockins_filter (items : list (string * component)) :
  forall lockins,
    find_lockins items lockins = lockins ++ map fst (filter exact_mfli items).
Proof.
  induction items as [|[name itm] items IH]; intros lockins.
  - cbn. now rewrite app_nil_r.
  - cbn [find_lockins filter]. unfold exact_mfli at 1. cbn [snd].
    destruct (isinstance itm Instrument_name); cbn [andb];
      [destruct (class_is itm MFLI_name)|]; rewrite IH;
      cbn [map fst]; now rewrite <- ?app_assoc.
Qed.

Lemma emits_only_go_to_loop (P : event -> Prop) (L : lab) (channel : chan)
  (threshold : option Q) :
  (forall v, P (VoltSet channel v)) -> P (CurrGet channel) ->
  (forall s, P (Sleep s)) ->
  forall array v_bound,
    emits_only P (go_to_loop L channel threshold array v_bound).
Proof.
  intros Hv Hc Hs.
  assert (Hcurr : emits_only P (curr_get L channel)).
  { unfold curr_get. apply emits_only_bind; [apply emits_only_history|].
    intros h. apply emits_only_bind; [now apply emits_only_emit|].
    intros _. apply emits_only_ret. }
  induction array as [|v rest IH]; intros v_bound; cbn [go_to_loop].
  - apply emits_only_ret.
  - apply emits_only_bind; [apply emits_only_emit, Hv|]. intros _.
    apply emits_only_bind; [exact Hcurr|]. intros _.
    apply emits_only_bind; [apply emits_only_emit, Hs|]. intros _.
    apply emits_only_bind.
    + unfold threshold_exceeded. destruct threshold as [t|].
      * destruct (Qeq_bool t 0); [apply emits_only_ret|].
        apply emits_only_bind; [exact Hcurr|]. intros c. apply emits_only_ret.
      * apply emits_only_ret.
    + intros [|]; [apply emits_only_ret | apply IH].
Qed.

Lemma emits_only_go_to (P : event -> Prop) (L : lab) (v0 v1 : Q)
  (channel : chan) (desc : option fstr) (threshold : option Q) :
  (forall v, P (VoltSet channel v)) -> P (CurrGet channel) ->
  (forall s, P (Sleep s)) ->
  emits_only P (_go_to L v0 v1 channel desc threshold).
Proof.
  intros Hv Hc Hs. unfold _go_to.
  apply emits_only_bind; [apply emits_only_lift|]. intros array.
  apply emits_only_bind; [apply emits_only_emit, Hs|]. intros _.
  apply emits_only_bind; [now apply emits_only_go_to_loop|]. intros v.
  apply emits_only_bind; [apply emits_only_emit, Hs|]. intros _.
  destruct v; [apply emits_only_ret | apply emits_only_raise].
Qed.

(** Looking up a component that the station holds. *)
Lemma station_attr_found (station : Station) (name : string) :
  holds station name ->
  exists c, forall h : list event,
      station_attr station name h = (Returned c, h).
Proof.
  unfold holds, station_attr. destruct station as [items]. cbn [components].
  induction items as [|[key itm] items IH]; [easy|].
  cbn [map fst In find]. intros Hin.
  destruct (String.eqb key name) eqn:Hkey.
  - now exists itm.
  - apply IH. destruct Hin as [->|Hin]; [|assumption].
    now rewrite String.eqb_refl in Hkey.
Qed.

Lemma station_attr_missing (station : Station) (name : string)
  (h : list event) :
  ~ holds station name ->
  station_attr station name h = (Raised AttributeError, h).
Proof.
  unfold holds, station_attr. destruct station as [items]. cbn [components].
  induction items as [|[key itm] items IH]; [reflexivity|].
  cbn [map fst In find]. intros Hnot.
  destruct (String.eqb key name) eqn:Hkey.
  - apply String.eqb_eq in Hkey. exfalso. apply Hnot. now left.
  - apply IH. intros Hin. apply Hnot. now right.
Qed.

Lemma bind_station_attr {B} (station : Station) (name : string)
  (k : Act B) (h : list event) :
  holds station name ->
  bind (station_attr station name) (fun _ => k) h = k h.
Proof.
  intros Hin. destruct (@station_attr_found station name Hin) as [c Hc].
  unfold bind. now rewrite Hc.
Qed.

Lemma emits_only_station_attr (P : event -> Prop) (station : Station)
  (name : string) :
  emits_only P (station_attr station name).
Proof.
  apply emits_only_silent. intros h. unfold station_attr.
  now destruct (find _ _).
Qed.

#[local] Hint Resolve emits_only_station_attr : emits.

(** The run of [gate_map] on non-empty target arrays, when the array
    generator ends at the requested target. *)
Lemma gate_map_run (L : lab) (x0 : Q) (xs : list Q) (inner_delay : Q)
  (y0 : Q) (ys : list Q) (outer_delay : Q) (station : Station)
  (exp : option nat) (label : option string) (measure_retrace : option bool)
  (h : list event) :
  holds station "keithley" ->
  holds station "triton" ->
  (forall a b, exists pre,
      generate_1D_sweep_array L a b 2e-1 = Returned (pre ++ [b])) ->
  exists top back,
    let init_tg := volt_of L smua (h ++ [InitialiseKeithley]) in
    let init_bg := volt_of L smub (h ++ [InitialiseKeithley; VoltGet smua]) in
    let before :=
      h ++ [InitialiseKeithley]
        ++ [VoltGet smua; VoltGet smub]
        ++ go_to_events smua None (top ++ [x0])
        ++ go_to_events smub None (back ++ [y0]) in
    let call :=
      {| param_set1 := Volt smua; array1 := x0 :: xs;
         delay1 := inner_delay;
         param_set2 := Volt smub; array2 := y0 :: ys;
         delay2 := outer_delay;
         param_meas := monitored (find_lockins (components station) []);
         Lab.exp := exp;
         measurement_name := [Lit "gate map "; OptStr label];
         use_threads := true;
         Lab.measure_retrace := measure_retrace |} in
    generate_1D_sweep_array L init_tg x0 2e-1 = Returned (top ++ [x0])
    /\ generate_1D_sweep_array L init_bg y0 2e-1 = Returned (back ++ [y0])
    /\ gate_map L (x0 :: xs) inner_delay (y0 :: ys) outer_delay station exp
         label measure_retrace h
       = (sweep2d L call before, before ++ [Sweep2d call]).
Proof.
  intros Hkeithley Htriton Hgen. cbv zeta.
  assert (E2 : h ++ [InitialiseKeithley; VoltGet smua]
               = (h ++ [InitialiseKeithley]) ++ [VoltGet smua])
    by now rewrite <- app_assoc.
  rewrite E2.
  destruct (Hgen (volt_of L smua (h ++ [InitialiseKeithley])) x0)
    as [top Htop].
  destruct (Hgen (volt_of L smub ((h ++ [InitialiseKeithley])
                                    ++ [VoltGet smua])) y0)
    as [back Hback].
  exists top, back.
  split; [exact Htop|]. split; [exact Hback|].
  unfold gate_map.
  rewrite bind_emit, bind_station_attr by assumption.
  rewrite volt_get_run, bind_station_attr by assumption.
  rewrite volt_get_run.
  unfold index at 1. cbn [nth_error].
  rewrite bind_ret, bind_station_attr by assumption.
  unfold bind at 1.
  rewrite (@go_to_run_no_threshold L _ x0 smua _ top _ Htop).
  unfold index at 1. cbn [nth_error].
  rewrite bind_ret, bind_station_attr by assumption.
  unfold bind at 1.
  rewrite (@go_to_run_no_threshold L _ y0 smub _ back _ Hback).
  rewrite !bind_station_attr by assumption.
  rewrite bind_ret_r, call_sweep2d_run.
  rewrite <- !app_assoc. reflexivity.
Qed.

(** Whatever happens, the only call of [sweep2d] that [gate_map] can make
    is the one written in its body. *)
Lemma gate_map_sweep2d_call (L : lab) (xarray : list Q) (inner_delay : Q)
  (yarray : list Q) (outer_delay : Q) (station : Station)
  (exp : option nat) (label : option string) (measure_retrace : option bool)
  (h tr : list event) (r : res raw_data) (call : sweep2d_call) :
  gate_map L xarray inner_delay yarray outer_delay station exp label
    measure_retrace h = (r, h ++ tr) ->
  In (Sweep2d call) tr ->
  call = {| param_set1 := Volt smua; array1 := xarray;
            delay1 := inner_delay;
            param_set2 := Volt smub; array2 := yarray;
            delay2 := outer_delay;
            param_meas := monitored (find_lockins (components station) []);
            Lab.exp := exp;
            measurement_name := [Lit "gate map "; OptStr label];
            use_threads := true;
            Lab.measure_retrace := measure_retrace |}.
Proof.
  intros Hrun Hin.
  set (the_call := {| param_set1 := Volt smua |}).
  set (P := fun e => match e with Sweep2d c => c = the_call | _ => True end).
  assert (Hall : Forall P tr).
  { eapply (@emits_only_run event P _ _ h tr r); [|exact Hrun].
    unfold gate_map, volt_get, call_sweep2d. emits_chain; try easy.
    all: now apply emits_only_go_to. }
  rewrite Forall_forall in Hall. exact (Hall _ Hin).
Qed.

Lemma in_writes (c : chan) (v : Q) (tr : list event) :
  In v (writes c tr) -> In (VoltSet c v) tr.
Proof.
  induction tr as [|e tr IH]; [easy|].
  destruct e; cbn [writes]; intros Hin; try (right; now apply IH).
  destruct c0, c; cbn [chan_eqb] in Hin;
    try (right; now apply IH);
    (destruct Hin as [->|Hin]; [now left | right; now apply IH]).
Qed.

(** Keys of a dict are unique. *)
Lemma unique_key {A B} (l : list (A * B)) (k : A) (a b : B) :
  NoDup (map fst l) -> In (k, a) l -> In (k, b) l -> a = b.
Proof.
  induction l as [|[k' c] l IH]; [easy|].
  cbn [map fst]. intros Hnd [Ha|Ha] [Hb|Hb]; inversion Hnd as [|? ? Hk Hl]; subst.
  - congruence.
  - inversion Ha; subst. exfalso. apply Hk.
    change k with (fst (k, b)). now apply in_map.
  - inversion Hb; subst. exfalso. apply Hk.
    change k with (fst (k, a)). now apply in_map.
  - now apply IH.
Qed.

Lemma in_find_lockins (station : Station) (name : string) :
  In name (find_lockins (components station) [])
  <-> exists itm, In (name, itm) (components station)
                  /\ exact_mfli (name, itm) = true.
Proof.
  rewrite find_lockins_filter. cbn [app]. rewrite in_map_iff. split.
  - intros ([n itm] & <- & Hin). apply filter_In in Hin. now exists itm.
  - intros (itm & Hin & Hex). exists (name, itm). split; [reflexivity|].
    now apply filter_In.
Qed.

Lemma spec_sweep_array_ends (a b : Q) :
  exists pre, spec_sweep_array a b 2e-1 = Returned (pre ++ [b]).
Proof. unfold spec_sweep_array. cbn [Qle_bool]. eexists. reflexivity. Qed.

End GateMapFacts.

Section GateMapClaims.

Import DoubleGateMap Trace Scenarios.

(** C3 (as amended).  On a station that holds the Keithley and the Triton,
    with non-empty target arrays, an array generator that ends at the
    requested target, and [initialise_keithley] and the instrument reads
    and writes succeeding, [gate_map] does, in this order and nothing
    else: the call of [initialise_keithley]; the
    reading of the two resting gate voltages; the stepping of the top gate
    from its resting value to [xarray[0]]; the stepping of the back gate
    from its resting value to [yarray[0]]; the call of [sweep2d].  What
    [sweep2d] gives back (a handle, or an exception) is the outcome of
    [gate_map]. *)
Theorem gate_map_order (L : lab) (x0 : Q) (xs : list Q) (inner_delay : Q)
  (y0 : Q) (ys : list Q) (outer_delay : Q) (station : Station)
  (exp : option nat) (label : option string) (measure_retrace : option bool)
  (h : list event) :
  holds station "keithley" ->
  holds station "triton" ->
  (forall a b, exists pre,
      generate_1D_sweep_array L a b 2e-1 = Returned (pre ++ [b])) ->
  exists top back call,
    let init_tg := volt_of L smua (h ++ [InitialiseKeithley]) in
    let init_bg := volt_of L smub (h ++ [InitialiseKeithley; VoltGet smua]) in
    let before :=
      h ++ [InitialiseKeithley]
        ++ [VoltGet smua; VoltGet smub]
        ++ go_to_events smua None (top ++ [x0])
        ++ go_to_events smub None (back ++ [y0]) in
    generate_1D_sweep_array L init_tg x0 2e-1 = Returned (top ++ [x0])
    /\ generate_1D_sweep_array L init_bg y0 2e-1 = Returned (back ++ [y0])
    /\ last_write smua before = Some x0
    /\ last_write smub before = Some y0
    /\ array1 call = x0 :: xs
    /\ array2 call = y0 :: ys
    /\ gate_map L (x0 :: xs) inner_delay (y0 :: ys) outer_delay station exp
         label measure_retrace h
       = (sweep2d L call before, before ++ [Sweep2d call]).
Proof.
  intros Hkeithley Htriton Hgen.
  destruct (@gate_map_run L x0 xs inner_delay y0 ys outer_delay station exp
              label measure_retrace h Hkeithley Htriton Hgen)
    as (top & back & Htop & Hback & Hrun).
  exists top, back. eexists. cbv zeta.
  split; [exact Htop|]. split; [exact Hback|].
  split; [|split; [|split; [|split; [|exact Hrun]]]].
  - unfold last_write.
    rewrite !writes_app, !writes_go_to_events_on. cbn [chan_eqb writes app].
    rewrite app_nil_r, app_assoc, map_app. cbn [map]. apply last_last.
  - unfold last_write.
    rewrite !writes_app, !writes_go_to_events_on. cbn [chan_eqb writes app].
    rewrite app_assoc, map_app. cbn [map]. apply last_last.
  - reflexivity.
  - reflexivity.
Qed.

(** C4.  The call of [sweep2d] that [gate_map] makes monitors exactly: the
    sample of demodulator 0 of every entry of [station.components] that is
    an instrument of class MFLI, in the order of the dict, then [triton.T8],
    [triton.Bz], [smua.curr] and [smub.curr]; it asks for threaded reads,
    and passes on the retrace flag, the experiment and, inside the
    measurement name, the label. *)
Theorem gate_map_monitored (L : lab) (xarray : list Q) (inner_delay : Q)
  (yarray : list Q) (outer_delay : Q) (station : Station)
  (exp : option nat) (label : option string) (measure_retrace : option bool)
  (h tr : list event) (r : res raw_data) (call : sweep2d_call) :
  gate_map L xarray inner_delay yarray outer_delay station exp label
    measure_retrace h = (r, h ++ tr) ->
  In (Sweep2d call) tr ->
  param_meas call
  = map (fun entry => DemodSample (fst entry) 0)
        (filter exact_mfli (components station))
    ++ [TritonT8; TritonBz; Curr smua; Curr smub]
  /\ use_threads call = true
  /\ Lab.measure_retrace call = measure_retrace
  /\ Lab.exp call = exp
  /\ measurement_name call = [Lit "gate map "; OptStr label]
  /\ param_set1 call = Volt smua /\ array1 call = xarray
  /\ delay1 call = inner_delay
  /\ param_set2 call = Volt smub /\ array2 call = yarray
  /\ delay2 call = outer_delay.
Proof.
  intros Hrun Hin.
  rewrite (@gate_map_sweep2d_call _ _ _ _ _ _ _ _ _ _ _ _ _ Hrun Hin).
  cbn [param_meas use_threads Lab.measure_retrace Lab.exp measurement_name
       param_set1 array1 delay1 param_set2 array2 delay2].
  unfold monitored. rewrite find_lockins_filter. cbn [app].
  rewrite map_map. repeat split.
Qed.

End GateMapClaims.

(** ** Lock-in discovery and [initialise_lockin] *)

Section LockinFacts.

Import DoubleGateMap Trace Scenarios Lockin.

Lemma emits_only_first_set (P : event -> Prop) (lockins : list string)
  (node : string) (value : setting) :
  (forall n, In n lockins -> P (LockinSet n node value)) ->
  emits_only P (first_set lockins node value).
Proof.
  intros HP. destruct lockins as [|l0 rest].
  - apply emits_only_silent. reflexivity.
  - intros h. exists [LockinSet l0 node value]. split; [reflexivity|].
    constructor; [|constructor]. apply HP. now left.
Qed.

(** Every setting [initialise_lockin] writes goes to a discovered lock-in. *)
Lemma emits_only_initialise_lockin (station : Station) (freq : Q) :
  emits_only
    (fun e => match e with
              | LockinSet n _ _ => In n (find_lockins (components station) [])
              | _ => True
              end)
    (initialise_lockin station freq).
Proof.
  unfold initialise_lockin.
  set (lockins := find_lockins (components station) []).
  repeat (apply emits_only_bind;
          [apply emits_only_first_set; intros n Hn; exact Hn | intros _]).
  apply emits_only_bind.
  { apply emits_only_for_each. intros a Ha.
    assert (In a lockins) by (destruct lockins; [easy | now right]).
    unfold lockin_set.
    repeat (apply emits_only_bind; [now apply emits_only_emit | intros _]).
    now apply emits_only_emit. }
  intros _. apply emits_only_bind.
  { apply emits_only_for_each. intros a Ha. unfold lockin_set.
    repeat (apply emits_only_bind; [now apply emits_only_emit | intros _]).
    now apply emits_only_emit. }
  intros _. apply emits_only_bind; [apply emits_only_index|].
  intros l0. now apply emits_only_emit.
Qed.

Lemma initialise_lockin_no_lockin (station : Station) (freq : Q)
  (h : list event) :
  find_lockins (components station) [] = [] ->
  initialise_lockin station freq h = (Raised IndexError, h).
Proof. intros Hnil. unfold initialise_lockin. now rewrite Hnil. Qed.

End LockinFacts.

Section LockinClaims.

Import DoubleGateMap Trace Scenarios Lockin.

(** C6 (as amended).  When the discovery finds no lock-in:
    [initialise_lockin], which needs one, raises [IndexError] before it has
    written anything to an instrument; [gate_map] needs none and raises
    nothing on that account: on a station that holds the Keithley and the
    Triton, with non-empty target arrays, an array generator that ends at
    the requested target, and [initialise_keithley] and the instrument
    reads and writes succeeding, it steps both
    gates to the start of their arrays and calls [sweep2d] with the four
    fixed observables only. *)
Theorem no_lockin_discovered (station : Station) :
  find_lockins (components station) [] = [] ->
  (forall freq h, initialise_lockin station freq h = (Raised IndexError, h))
  /\ (forall L x0 xs inner_delay y0 ys outer_delay exp label measure_retrace h,
        holds station "keithley" ->
        holds station "triton" ->
        (forall a b, exists pre,
            generate_1D_sweep_array L a b 2e-1 = Returned (pre ++ [b])) ->
        exists tr call,
          gate_map L (x0 :: xs) inner_delay (y0 :: ys) outer_delay station
            exp label measure_retrace h
          = (sweep2d L call (h ++ tr), (h ++ tr) ++ [Sweep2d call])
          /\ param_meas call = [TritonT8; TritonBz; Curr smua; Curr smub]
          /\ In (VoltSet smua x0) tr
          /\ In (VoltSet smub y0) tr).
Proof.
  intros Hnil. split.
  - intros freq h. now apply initialise_lockin_no_lockin.
  - intros L x0 xs inner_delay y0 ys outer_delay exp label measure_retrace h
      Hkeithley Htriton Hgen.
    destruct (@gate_map_run L x0 xs inner_delay y0 ys outer_delay station exp
                label measure_retrace h Hkeithley Htriton Hgen)
      as (top & back & _ & _ & Hrun).
    cbv zeta in Hrun. rewrite Hnil in Hrun.
    eexists. eexists. split; [exact Hrun|]. split; [reflexivity|].
    split; apply in_writes; rewrite !writes_app, !writes_go_to_events_on;
      cbn [chan_eqb writes app]; rewrite ?app_nil_r;
      apply in_or_app; right; left; reflexivity.
Qed.

(** C9.  On a station (a dict: its keys are unique), the component stored
    under [name] is discovered as a lock-in exactly when it is an
    [Instrument] and its class is [zhinst.qcodes.mfli.MFLI] itself; a
    component of any other class, a subclass of MFLI included, or one that
    is no instrument, is left out.  [gate_map] monitors a demodulator of
    [name], and [initialise_lockin] writes a setting of [name], only for a
    component discovered in that way. *)
Theorem lockin_discovery_exact_class (station : Station) (name : string)
  (itm : component) :
  NoDup (map fst (components station)) ->
  In (name, itm) (components station) ->
  (In name (find_lockins (components station) [])
   <-> isinstance itm Instrument_name = true
       /\ qualname (class_of itm) = MFLI_name)
  /\ (forall L xarray inner_delay yarray outer_delay exp label measure_retrace
             h tr r call demod,
        gate_map L xarray inner_delay yarray outer_delay station exp label
          measure_retrace h = (r, h ++ tr) ->
        In (Sweep2d call) tr ->
        In (DemodSample name demod) (param_meas call) ->
        isinstance itm Instrument_name = true
        /\ qualname (class_of itm) = MFLI_name)
  /\ (forall freq h tr r node value,
        initialise_lockin station freq h = (r, h ++ tr) ->
        In (LockinSet name node value) tr ->
        isinstance itm Instrument_name = true
        /\ qualname (class_of itm) = MFLI_name).
Proof.
  intros Hnd Hin.
  assert (Hiff : In name (find_lockins (components station) [])
                 <-> isinstance itm Instrument_name = true
                     /\ qualname (class_of itm) = MFLI_name).
  { rewrite in_find_lockins. unfold exact_mfli, class_is. cbn [snd]. split.
    - intros (itm' & Hin' & Hex).
      rewrite (unique_key _ _ _ _ Hnd Hin Hin').
      apply andb_true_iff in Hex. destruct Hex as [Hi Hc].
      now apply String.eqb_eq in Hc.
    - intros [Hi Hc]. exists itm. split; [assumption|].
      apply andb_true_iff. split; [assumption|]. now apply String.eqb_eq. }
  split; [exact Hiff|]. split.
  - intros L xarray inner_delay yarray outer_delay exp label measure_retrace
      h tr r call demod Hrun Hcall Hdemod.
    rewrite (@gate_map_sweep2d_call _ _ _ _ _ _ _ _ _ _ _ _ _ Hrun Hcall)
      in Hdemod.
    cbn [param_meas] in Hdemod. unfold monitored in Hdemod.
    apply in_app_or in Hdemod. destruct Hdemod as [Hd|Hd].
    + apply in_map_iff in Hd. destruct Hd as (n & [= -> _] & Hn).
      now apply Hiff.
    + cbn in Hd. intuition discriminate.
  - intros freq h tr r node value Hrun Hset.
    pose proof (@emits_only_run _ _ _ _ h tr r
                  (emits_only_initialise_lockin station freq) Hrun) as Hall.
    rewrite Forall_forall in Hall. apply Hiff. exact (Hall _ Hset).
Qed.

End LockinClaims.

Section StationScenarios.

Import DoubleGateMap Trace Scenarios Lockin.

Lemma gate_map_order_example :
  exists top back call,
    let init_tg := volt_of quiet_lab smua ([] ++ [InitialiseKeithley]) in
    let init_bg :=
      volt_of quiet_lab smub ([] ++ [InitialiseKeithley; VoltGet smua]) in
    let before :=
      [] ++ [InitialiseKeithley]
         ++ [VoltGet smua; VoltGet smub]
         ++ go_to_events smua None (top ++ [0.4])
         ++ go_to_events smub None (back ++ [0.2]) in
    generate_1D_sweep_array quiet_lab init_tg 0.4 2e-1
    = Returned (top ++ [0.4])
    /\ generate_1D_sweep_array quiet_lab init_bg 0.2 2e-1
       = Returned (back ++ [0.2])
    /\ last_write smua before = Some 0.4
    /\ last_write smub before = Some 0.2
    /\ array1 call = 0.4 :: [1]
    /\ array2 call = 0.2 :: [3]
    /\ gate_map quiet_lab (0.4 :: [1]) 0.1 (0.2 :: [3]) 0.1 lockin_station
         None None None []
       = (sweep2d quiet_lab call before, before ++ [Sweep2d call]).
Proof.
  apply (@gate_map_order quiet_lab 0.4 [1] 0.1 0.2 [3] 0.1 lockin_station
           None None None []).
  - unfold holds. cbn. tauto.
  - unfold holds. cbn. tauto.
  - exact spec_sweep_array_ends.
Defined.

(** C3, as it is stated, fails: not every call of [gate_map] gets as far
    as [sweep2d].  With an empty [yarray] it raises [IndexError] once the
    top gate has been moved; with an empty [xarray], before any motion; on
    a station without the Triton it raises [AttributeError] after both
    gates have been moved; on a station without the Keithley, right after
    [initialise_keithley].  In none of these runs is [sweep2d] called. *)
Lemma gate_map_order_counterexample :
  gate_map quiet_lab [0.4; 1] 0.1 [] 0.1 lockin_station None None None []
  = (Raised IndexError,
     [InitialiseKeithley; VoltGet smua; VoltGet smub;
      Sleep 0.5;
      VoltSet smua 0; CurrGet smua; Sleep 0.1;
      VoltSet smua (1 # 5); CurrGet smua; Sleep 0.1;
      VoltSet smua 0.4; CurrGet smua; Sleep 0.1;
      Sleep 0.5])
  /\ gate_map quiet_lab [] 0.1 [0.2; 3] 0.1 lockin_station None None None []
     = (Raised IndexError, [InitialiseKeithley; VoltGet smua; VoltGet smub])
  /\ gate_map quiet_lab [0.4; 1] 0.1 [0.2; 3] 0.1 no_triton_station None None
       None []
     = (Raised AttributeError,
        [InitialiseKeithley; VoltGet smua; VoltGet smub;
         Sleep 0.5;
         VoltSet smua 0; CurrGet smua; Sleep 0.1;
         VoltSet smua (1 # 5); CurrGet smua; Sleep 0.1;
         VoltSet smua 0.4; CurrGet smua; Sleep 0.1;
         Sleep 0.5;
         Sleep 0.5;
         VoltSet smub 0; CurrGet smub; Sleep 0.1;
         VoltSet smub 0.2; CurrGet smub; Sleep 0.1;
         Sleep 0.5])
  /\ gate_map quiet_lab [0.4; 1] 0.1 [0.2; 3] 0.1 no_keithley_station None
       None None []
     = (Raised AttributeError, [InitialiseKeithley]).
Proof. repeat split; vm_compute; reflexivity. Qed.

(** The same run, evaluated: the events in their order. *)
Example gate_map_run_evaluated :
  gate_map quiet_lab [0.4; 1] 0.1 [0.2; 3] 0.1 lockin_station None
    (Some "test"%string) (Some true) []
  = (Returned (RunHandle 1),
     [InitialiseKeithley; VoltGet smua; VoltGet smub;
      Sleep 0.5;
      VoltSet smua 0; CurrGet smua; Sleep 0.1;
      VoltSet smua (1 # 5); CurrGet smua; Sleep 0.1;
      VoltSet smua 0.4; CurrGet smua; Sleep 0.1;
      Sleep 0.5;
      Sleep 0.5;
      VoltSet smub 0; CurrGet smub; Sleep 0.1;
      VoltSet smub 0.2; CurrGet smub; Sleep 0.1;
      Sleep 0.5;
      Sweep2d example_call]).
Proof. vm_compute. reflexivity. Qed.

Lemma gate_map_monitored_example :
  In (Sweep2d example_call)
     (snd (gate_map quiet_lab [0.4; 1] 0.1 [0.2; 3] 0.1 lockin_station None
             (Some "test"%string) (Some true) []))
  /\ (param_meas example_call
      = map (fun entry => DemodSample (fst entry) 0)
            (filter exact_mfli (components lockin_station))
        ++ [TritonT8; TritonBz; Curr smua; Curr smub]
      /\ use_threads example_call = true
      /\ Lab.measure_retrace example_call = Some true
      /\ Lab.exp example_call = None
      /\ measurement_name example_call
         = [Lit "gate map "; OptStr (Some "test"%string)]
      /\ param_set1 example_call = Volt smua
      /\ array1 example_call = [0.4; 1]
      /\ delay1 example_call = 0.1
      /\ param_set2 example_call = Volt smub
      /\ array2 example_call = [0.2; 3]
      /\ delay2 example_call = 0.1).
Proof.
  assert (Hin : In (Sweep2d example_call)
                  (snd (gate_map quiet_lab [0.4; 1] 0.1 [0.2; 3] 0.1
                          lockin_station None (Some "test"%string)
                          (Some true) []))).
  { vm_compute. repeat (first [left; reflexivity | right]). }
  split; [exact Hin|].
  apply (@gate_map_monitored quiet_lab [0.4; 1] 0.1 [0.2; 3] 0.1
           lockin_station None (Some "test"%string) (Some true) []
           (snd (gate_map quiet_lab [0.4; 1] 0.1 [0.2; 3] 0.1 lockin_station
                   None (Some "test"%string) (Some true) []))
           (Returned (RunHandle 1)) example_call).
  - vm_compute. reflexivity.
  - exact Hin.
Defined.

(** C6, as it is stated, fails for [gate_map]: on a station without any
    lock-in it raises nothing, moves the gates and returns the handle. *)
Lemma gate_map_without_lockin_counterexample :
  find_lockins (components bare_station) [] = []
  /\ fst (gate_map quiet_lab [0.4; 1] 0.1 [0.2; 3] 0.1 bare_station None None
            None [])
     = Returned (RunHandle 1)
  /\ filter is_motion
       (snd (gate_map quiet_lab [0.4; 1] 0.1 [0.2; 3] 0.1 bare_station None
               None None []))
     = [VoltSet smua 0; VoltSet smua (1 # 5); VoltSet smua 0.4;
        VoltSet smub 0; VoltSet smub 0.2].
Proof. repeat split; vm_compute; reflexivity. Qed.

Lemma no_lockin_discovered_example :
  initialise_lockin bare_station 127 [] = (Raised IndexError, [])
  /\ exists tr call,
       gate_map quiet_lab (0.4 :: [1]) 0.1 (0.2 :: [3]) 0.1 bare_station
         None None None []
       = (sweep2d quiet_lab call ([] ++ tr), ([] ++ tr) ++ [Sweep2d call])
       /\ param_meas call = [TritonT8; TritonBz; Curr smua; Curr smub]
       /\ In (VoltSet smua 0.4) tr
       /\ In (VoltSet smub 0.2) tr.
Proof.
  destruct (@no_lockin_discovered bare_station eq_refl) as [Hinit Hmap].
  split.
  - apply Hinit.
  - apply Hmap.
    + unfold holds. cbn. tauto.
    + unfold holds. cbn. tauto.
    + exact spec_sweep_array_ends.
Defined.

Lemma lockin_station_keys : NoDup (map fst (components lockin_station)).
Proof.
  cbn [map fst components lockin_station].
  repeat (constructor; [cbn [In]; intuition discriminate|]). constructor.
Qed.

(** A driver derived from MFLI is an instance of MFLI and yet is not
    discovered. *)
Lemma lockin_discovery_subclass_example :
  isinstance mfli_subclass MFLI_name = true
  /\ ~ In "mf3"%string (find_lockins (components lockin_station) []).
Proof.
  split; [reflexivity|]. intros Hin.
  destruct (@lockin_discovery_exact_class lockin_station "mf3" mfli_subclass
              lockin_station_keys) as [Hiff _].
  - cbn. intuition.
  - apply Hiff in Hin. destruct Hin as [_ Hq]. discriminate Hq.
Defined.

Example lockin_station_discovered :
  find_lockins (components lockin_station) [] = ["mf1"; "mf2"]%string.
Proof. reflexivity. Qed.

End StationScenarios.

(** ** Plotting: [plot_dataset_1D] and [plot_dataset_2D] *)

Section PlotFacts.

Import Plot.

Lemma bind_returned {Ev A B} (c : M Ev A) (k : A -> M Ev B) (h h' : list Ev)
  (b : B) :
  bind c k h = (Returned b, h') ->
  exists a h1, c h = (Returned a, h1) /\ k a h1 = (Returned b, h').
Proof.
  unfold bind. destruct (c h) as [[a|e] h1]; intros H;
    [now exists a, h1 | discriminate].
Qed.

(** [IndexError] is not a [ValueError]. *)
Lemma index_error_not_value_error : exn_issubclass IndexError ValueError = false.
Proof. reflexivity. Qed.

(** The selection for 'imag' and 'phase': the handler of the [try] is
    never entered; a missing second element leaves as [IndexError]. *)
Lemma select_component_second (complex_plot_type : string)
  (dataset : list plot_data) (h : list event) :
  complex_plot_type = "imag"%string \/ complex_plot_type = "phase"%string ->
  select_component complex_plot_type dataset h
  = (match nth_error dataset 1 with
     | Some d1 => Returned [d1]
     | None => Raised IndexError
     end, h).
Proof.
  intros [-> | ->]; unfold select_component; cbn [String.eqb Ascii.eqb Bool.eqb orb];
    unfold try_except, index, bind, ret, raise;
    destruct (nth_error dataset 1); reflexivity.
Qed.

(** The selection prints nothing, whatever the plot type. *)
Lemma select_component_silent (complex_plot_type : string)
  (dataset : list plot_data) (h : list event) :
  snd (select_component complex_plot_type dataset h) = h.
Proof.
  unfold select_component.
  destruct (_ || _).
  - unfold index, bind, ret, raise. now destruct (nth_error dataset 0).
  - destruct (_ || _); [|reflexivity].
    unfold try_except, index, bind, ret, raise.
    now destruct (nth_error dataset 1).
Qed.

Lemma load_preparsed_silent (E : env) (id : ident) (var : string)
  (complex_plot_type complex_plot_phase : string) (h : list event) :
  snd (load_preparsed E id var complex_plot_type complex_plot_phase h) = h.
Proof.
  unfold load_preparsed.
  destruct (negb _); [reflexivity|]. destruct (negb _); [reflexivity|].
  unfold bind, lift, raise, ret.
  destruct (get_dataset E id); [|reflexivity].
  destruct (list_parameters E id); [|reflexivity].
  destruct (negb _); [reflexivity|].
  destruct (get_data_by_paramname E a var); [|reflexivity].
  now destruct (_complex_to_real_preparser E _ _ _).
Qed.

Lemma emits_only_load_preparsed (P : event -> Prop) (E : env) (id : ident)
  (var : string) (complex_plot_type complex_plot_phase : string) :
  emits_only P (load_preparsed E id var complex_plot_type complex_plot_phase).
Proof. apply emits_only_silent, load_preparsed_silent. Qed.

Lemma emits_only_select_component (P : event -> Prop)
  (complex_plot_type : string) (dataset : list plot_data) :
  emits_only P (select_component complex_plot_type dataset).
Proof. apply emits_only_silent, select_component_silent. Qed.

Lemma emits_only_zip2 (P : event -> Prop) (dataset : list plot_data)
  (axeslist : axes_obj) :
  emits_only P (zip2 dataset axeslist).
Proof. destruct axeslist; cbn [zip2]; auto with emits. Qed.

Lemma emits_only_zip3 (P : event -> Prop) (dataset : list plot_data)
  (axeslist : axes_obj) (colorbars : list (option nat)) :
  emits_only P (zip3 dataset axeslist colorbars).
Proof. destruct axeslist; cbn [zip3]; auto with emits. Qed.

#[local] Hint Resolve emits_only_load_preparsed emits_only_select_component
  emits_only_zip2 emits_only_zip3 : emits.

(** Neither function ever prints the 'no imaginary part' message. *)
Lemma emits_only_plot_dataset_1D (E : env) (id : ident) (var : string)
  (rescale_axes : bool) (multiply_by : Q * Q)
  (complex_plot_type complex_plot_phase : string) (size : Q) :
  emits_only not_the_message
    (plot_dataset_1D E id var rescale_axes multiply_by complex_plot_type
       complex_plot_phase size).
Proof.
  unfold plot_dataset_1D. emits_chain; try discriminate.
  apply emits_only_for_each. intros [data ax] _.
  emits_chain. discriminate.
Qed.

Lemma emits_only_plot_dataset_2D (E : env) (id : ident) (var : string)
  (rescale_axes : bool) (multiply_by : Q * Q * Q)
  (complex_plot_type complex_plot_phase : string) (size : Q) :
  emits_only not_the_message
    (plot_dataset_2D E id var rescale_axes multiply_by complex_plot_type
       complex_plot_phase size).
Proof.
  unfold plot_dataset_2D. emits_chain; try discriminate.
  apply emits_only_for_each. intros [[data ax] colorbar] _.
  emits_chain. discriminate.
Qed.

End PlotFacts.

Section PlotClaims.

Import Plot.

(** C7.  In [plot_dataset_1D] and [plot_dataset_2D] with plot type 'imag'
    or 'phase', the selection [dataset[1]] sits in a [try] whose handler
    catches [ValueError]; a list index out of range raises [IndexError],
    which is no [ValueError].  So the selection either gives the second
    element or raises [IndexError] out of the [try], without printing; the
    message 'the dataset had no imaginary part' is never printed by either
    function; and when the pre-parsed data have fewer than two elements
    both functions end with [IndexError] raised to the caller. *)
Theorem no_imaginary_part_unreachable (E : env) (id : ident) (var : string)
  (rescale_axes : bool) (multiply_by1 : Q * Q) (multiply_by2 : Q * Q * Q)
  (complex_plot_type complex_plot_phase : string) (size : Q)
  (h : list event) :
  complex_plot_type = "imag"%string \/ complex_plot_type = "phase"%string ->
  (forall dataset,
      select_component complex_plot_type dataset h
      = (match nth_error dataset 1 with
         | Some d1 => Returned [d1]
         | None => Raised IndexError
         end, h))
  /\ (forall r tr,
        plot_dataset_1D E id var rescale_axes multiply_by1 complex_plot_type
          complex_plot_phase size h = (r, h ++ tr) ->
        ~ In (Print no_imaginary_part) tr)
  /\ (forall r tr,
        plot_dataset_2D E id var rescale_axes multiply_by2 complex_plot_type
          complex_plot_phase size h = (r, h ++ tr) ->
        ~ In (Print no_imaginary_part) tr)
  /\ (forall title dataset,
        load_preparsed E id var complex_plot_type complex_plot_phase h
        = (Returned (title, dataset), h) ->
        (List.length dataset < 2)%nat ->
        plot_dataset_1D E id var rescale_axes multiply_by1 complex_plot_type
          complex_plot_phase size h = (Raised IndexError, h)
        /\ plot_dataset_2D E id var rescale_axes multiply_by2
             complex_plot_type complex_plot_phase size h
           = (Raised IndexError, h)).
Proof.
  intros Htype. split; [|split; [|split]].
  - intros dataset. now apply select_component_second.
  - intros r tr Hrun Hin.
    pose proof (@emits_only_run _ _ _ _ h tr r
                  (emits_only_plot_dataset_1D E id var rescale_axes
                     multiply_by1 complex_plot_type complex_plot_phase size)
                  Hrun) as Hall.
    rewrite Forall_forall in Hall. now apply (Hall _ Hin).
  - intros r tr Hrun Hin.
    pose proof (@emits_only_run _ _ _ _ h tr r
                  (emits_only_plot_dataset_2D E id var rescale_axes
                     multiply_by2 complex_plot_type complex_plot_phase size)
                  Hrun) as Hall.
    rewrite Forall_forall in Hall. now apply (Hall _ Hin).
  - intros title dataset Hload Hlen.
    assert (Hsel : forall d0 : plot_data,
               select_component complex_plot_type [d0] h
               = (Raised IndexError, h))
      by (intros d0; now rewrite (select_component_second _ _ Htype)).
    split.
    + unfold plot_dataset_1D. unfold bind at 1. rewrite Hload.
      destruct dataset as [|d0 [|d1 rest]];
        [reflexivity| |cbn in Hlen; lia].
      destruct d0 as [|a0 d0]; [reflexivity|].
      unfold index at 1. cbn [nth_error]. rewrite bind_ret.
      unfold index at 1. cbn [nth_error]. rewrite bind_ret.
      unfold bind at 1. now rewrite Hsel.
    + unfold plot_dataset_2D. unfold bind at 1. rewrite Hload.
      destruct dataset as [|d0 [|d1 rest]];
        [reflexivity| |cbn in Hlen; lia].
      destruct d0 as [|a0 [|a1 d0]]; [reflexivity|reflexivity|].
      unfold index at 1. cbn [nth_error]. rewrite bind_ret.
      unfold index at 1. cbn [nth_error]. rewrite bind_ret.
      unfold index at 1. cbn [nth_error]. rewrite bind_ret.
      unfold bind at 1. now rewrite Hsel.
Qed.

(** C10.  Whenever [plot_dataset_1D] returns, it returns [None].  Whenever
    [plot_dataset_2D] returns, it returns the pair of the array of axes
    that [plt.subplots] gave and the list [colorbars], which still is
    [[None]*nplots]. *)
Theorem plot_return_values :
  (forall E id var rescale_axes multiply_by complex_plot_type
          complex_plot_phase size h r h',
      plot_dataset_1D E id var rescale_axes multiply_by complex_plot_type
        complex_plot_phase size h = (Returned r, h') ->
      r = PyNone)
  /\ (forall E id var rescale_axes multiply_by complex_plot_type
             complex_plot_phase size h r h',
        plot_dataset_2D E id var rescale_axes multiply_by complex_plot_type
          complex_plot_phase size h = (Returned r, h') ->
        exists axs nplots figsize,
          subplots E nplots figsize = Returned (AxesArray axs)
          /\ r = PyPair (AxesArray axs) (repeat None nplots)).
Proof.
  split.
  - intros E id var rescale_axes multiply_by complex_plot_type
      complex_plot_phase size h r h' Hrun.
    unfold plot_dataset_1D in Hrun.
    repeat (apply bind_returned in Hrun;
            destruct Hrun as (? & ? & _ & Hrun);
            try match goal with p : (_ * _)%type |- _ => destruct p end).
    now injection Hrun as <- _.
  - intros E id var rescale_axes multiply_by complex_plot_type
      complex_plot_phase size h r h' Hrun.
    unfold plot_dataset_2D in Hrun.
    apply bind_returned in Hrun.
    destruct Hrun as ([title dataset] & ? & _ & Hrun).
    do 6 (apply bind_returned in Hrun; destruct Hrun as (? & ? & _ & Hrun)).
    apply bind_returned in Hrun.
    destruct Hrun as (axeslist & ? & Hsub & Hrun).
    apply bind_returned in Hrun.
    destruct Hrun as (triples & ? & Hzip & Hrun).
    apply bind_returned in Hrun. destruct Hrun as (? & ? & _ & Hrun).
    injection Hrun as <- _.
    destruct axeslist as [ax|axs]; [discriminate Hzip|].
    unfold lift in Hsub. injection Hsub as Hsub _.
    eexists. eexists. eexists. split; [exact Hsub|reflexivity].
Qed.

End PlotClaims.

Section PlotScenarios.

Import Plot.

Open Scope string_scope.

(** A real-valued variable plotted with type 'imag': [IndexError] reaches
    the caller before anything is printed or drawn. *)
Lemma no_imaginary_part_unreachable_example :
  plot_dataset_1D real_env (RunId 7) "R" true (1, 1)%Q "imag" "degrees" 8 []
  = (Raised IndexError, [])
  /\ plot_dataset_2D real_env (RunId 7) "R" true (1, 1, 1)%Q "imag" "degrees"
       8 []
     = (Raised IndexError, []).
Proof.
  destruct (@no_imaginary_part_unreachable real_env (RunId 7) "R" true
              (1, 1)%Q (1, 1, 1)%Q "imag" "degrees" 8 []
              (or_introl eq_refl)) as (_ & _ & _ & Hraise).
  apply (Hraise (title_of demo_info) [demo_panel "R"]).
  - vm_compute. reflexivity.
  - cbn. lia.
Defined.

(** A complex-valued variable plotted as magnitude and phase: both
    functions return. *)
Lemma plot_return_values_example :
  (exists r h',
      plot_dataset_1D complex_env (RunId 7) "R" true (1, 1)%Q "mag_and_phase"
        "degrees" 8 [] = (Returned r, h')
      /\ r = PyNone)
  /\ (exists r h',
        plot_dataset_2D complex_env (RunId 7) "R" true (1, 1, 1)%Q
          "mag_and_phase" "degrees" 8 [] = (Returned r, h')
        /\ exists axs nplots figsize,
             subplots complex_env nplots figsize = Returned (AxesArray axs)
             /\ r = PyPair (AxesArray axs) (repeat None nplots)).
Proof.
  destruct plot_return_values as [H1 H2]. split.
  - eexists. eexists. split.
    + vm_compute. reflexivity.
    + eapply (H1 complex_env (RunId 7) "R" true (1, 1)%Q "mag_and_phase"
                "degrees" 8%Q []).
      vm_compute. reflexivity.
  - eexists. eexists. split.
    + vm_compute. reflexivity.
    + eapply (H2 complex_env (RunId 7) "R" true (1, 1, 1)%Q "mag_and_phase"
                "degrees" 8%Q []).
      vm_compute. reflexivity.
Defined.

Example plot_dataset_2D_complex_run :
  fst (plot_dataset_2D complex_env (RunId 7) "R" true (1, 1, 1)%Q
         "mag_and_phase" "degrees" 8 [])
  = Returned (PyPair (AxesArray [0; 1]%nat) [None; None]).
Proof. vm_compute. reflexivity. Qed.

End PlotScenarios.

(** ** Further properties of [_go_to] *)

Section GoToFurther.

Import DoubleGateMap Trace Scenarios Measures.

(** X1.  On an empty generated array [_go_to] ends with
    [UnboundLocalError]: the loop body is never entered, so [return v]
    finds [v] unbound, after both settle delays and without any write or
    read. *)
Theorem go_to_empty_array (L : lab) (v0 v1 : Q) (channel : chan)
  (desc : option fstr) (threshold : option Q) (h : list event) :
  generate_1D_sweep_array L v0 v1 2e-1 = Returned [] ->
  _go_to L v0 v1 channel desc threshold h
  = (Raised UnboundLocalError, h ++ [Sleep 0.5; Sleep 0.5]).
Proof.
  intros Hgen. rewrite (go_to_run L channel threshold v0 v1 desc h Hgen).
  reflexivity.
Qed.

Lemma go_to_empty_array_example :
  _go_to empty_array_lab 0 1 smua None (Some 1.5) []
  = (Raised UnboundLocalError, [] ++ [Sleep 0.5; Sleep 0.5]).
Proof.
  apply (@go_to_empty_array empty_array_lab 0 1 smua None (Some 1.5) []).
  reflexivity.
Defined.

Lemma Qgtb_false (a b : Q) : a <= b -> Qgtb a b = false.
Proof.
  intros Hle. destruct (Qgtb a b) eqn:E; [|reflexivity].
  apply Qgtb_spec in E. now apply Qle_not_lt in Hle.
Qed.

(** X2.  With a threshold that the current read by the check never
    exceeds, [_go_to] goes through the whole array: when the array ends at
    the target, it returns the target, which is the last value written. *)
Theorem go_to_threshold_never_exceeded (L : lab) (v0 v1 : Q)
  (channel : chan) (desc : option fstr) (t : Q) (pre : list Q)
  (h : list event) :
  generate_1D_sweep_array L v0 v1 2e-1 = Returned (pre ++ [v1]) ->
  (forall p1 u p2, pre ++ [v1] = p1 ++ u :: p2 ->
     check_reading L channel
       (h ++ [Sleep 0.5] ++ steps_events channel (Some t) p1) u <= t) ->
  exists tr,
    _go_to L v0 v1 channel desc (Some t) h = (Returned v1, h ++ tr)
    /\ writes channel tr = pre ++ [v1]
    /\ last_write channel tr = Some v1.
Proof.
  intros Hgen Hquiet.
  assert (Hvis : visited L channel (Some t) (h ++ [Sleep 0.5]) (pre ++ [v1])
                 = pre ++ [v1]).
  { rewrite <- (app_nil_r (pre ++ [v1])) at 1.
    rewrite visited_app; [cbn [visited]; now rewrite app_nil_r|].
    intros p1 u p2 Hsplit. unfold aborts.
    rewrite Qgtb_false; [now rewrite andb_false_r|].
    rewrite <- app_assoc. now apply (Hquiet p1 u p2). }
  exists (go_to_events channel (Some t) (pre ++ [v1])).
  rewrite (go_to_run L channel (Some t) v0 v1 desc h Hgen), Hvis.
  rewrite last_map_some_app, writes_go_to_events, last_write_go_to_events,
    last_map_some_app.
  repeat split.
Qed.

Lemma go_to_threshold_never_exceeded_example :
  exists tr,
    _go_to quiet_lab 0.0 0.4 smua None (Some 1.5) []
    = (Returned 0.4, [] ++ tr)
    /\ writes smua tr = [0; 1 # 5] ++ [0.4]
    /\ last_write smua tr = Some 0.4.
Proof.
  apply (@go_to_threshold_never_exceeded quiet_lab 0.0 0.4 smua None 1.5
           [0; 1 # 5] []).
  - vm_compute. reflexivity.
  - intros p1 u p2 E. cbn [app] in E. each_setpoint E p1.
Defined.

(** X3.  Whatever happens, the only instrument [_go_to] talks to is its
    own channel, which it writes and reads; besides that it only sleeps.
    It never writes or reads the other channel or a lock-in, and never
    calls [initialise_keithley] or [sweep2d].  (What it prints, the
    progress bar of [tqdm], is no part of this statement.) *)
Theorem go_to_own_channel_only (L : lab) (v0 v1 : Q) (channel : chan)
  (desc : option fstr) (threshold : option Q) (h : list event) :
  exists tr,
    snd (_go_to L v0 v1 channel desc threshold h) = h ++ tr
    /\ (forall e, In e tr ->
          match e with
          | Sleep _ | Print _ => True
          | VoltSet c _ | CurrGet c => c = channel
          | VoltGet _ | InitialiseKeithley | Sweep2d _ | LockinSet _ _ _ =>
              False
          end).
Proof.
  destruct (@emits_only_go_to (stepper_event channel) L v0 v1 channel desc
              threshold) with (h := h) as (tr & E & F);
    try (intros; exact I); try reflexivity.
  exists tr. split; [exact E|].
  intros e Hin. rewrite Forall_forall in F. specialize (F e Hin).
  destruct e; cbn [stepper_event] in F; easy.
Qed.

Lemma slept_app (tr1 tr2 : list event) :
  slept (tr1 ++ tr2) == slept tr1 + slept tr2.
Proof.
  induction tr1 as [|e tr1 IH]; cbn [app slept].
  - now rewrite Qplus_0_l.
  - destruct e; try exact IH. rewrite IH. apply Qplus_assoc.
Qed.

Lemma reads_app (c : chan) (tr1 tr2 : list event) :
  reads c (tr1 ++ tr2) = (reads c tr1 + reads c tr2)%nat.
Proof.
  induction tr1 as [|e tr1 IH]; [reflexivity|].
  destruct e; cbn [app reads]; try exact IH.
  destruct (chan_eqb c0 c); cbn; now rewrite IH.
Qed.

Lemma slept_steps_events (channel : chan) (threshold : option Q)
  (vs : list Q) :
  slept (steps_events channel threshold vs)
  == 0.1 * inject_Z (Z.of_nat (List.length vs)).
Proof.
  induction vs as [|v vs IH].
  - reflexivity.
  - unfold steps_events in *. cbn [flat_map]. rewrite slept_app, IH.
    unfold step_events, check_events. rewrite slept_app.
    destruct (truthy threshold); cbn [approach_events slept List.length];
      rewrite Nat2Z.inj_succ, <- Z.add_1_r, inject_Z_plus; ring.
Qed.

Lemma reads_steps_events (channel : chan) (threshold : option Q)
  (vs : list Q) :
  reads channel (steps_events channel threshold vs)
  = ((if truthy threshold then 2 else 1) * List.length vs)%nat.
Proof.
  induction vs as [|v vs IH].
  - now destruct (truthy threshold).
  - unfold steps_events in *. cbn [flat_map]. rewrite reads_app, IH.
    unfold step_events, check_events. rewrite reads_app.
    destruct (truthy threshold);
      cbn [approach_events reads List.length]; rewrite chan_eqb_refl;
      cbn [reads]; lia.
Qed.

(** X4.  What a run of [_go_to] costs: when it writes [n] setpoints it
    sleeps for 1 + 0.1 n seconds in all and reads the current [2 n] times
    with a threshold in force, [n] times without. *)
Theorem go_to_cost (L : lab) (v0 v1 : Q) (channel : chan)
  (desc : option fstr) (threshold : option Q) (array : list Q)
  (h : list event) :
  generate_1D_sweep_array L v0 v1 2e-1 = Returned array ->
  exists tr,
    snd (_go_to L v0 v1 channel desc threshold h) = h ++ tr
    /\ slept tr
       == 1 + 0.1 * inject_Z (Z.of_nat (List.length (writes channel tr)))
    /\ reads channel tr
       = ((if truthy threshold then 2 else 1)
          * List.length (writes channel tr))%nat.
Proof.
  intros Hgen.
  set (vs := visited L channel threshold (h ++ [Sleep 0.5]) array).
  exists (go_to_events channel threshold vs).
  rewrite (go_to_run L channel threshold v0 v1 desc h Hgen). fold vs.
  rewrite writes_go_to_events. split; [reflexivity|]. split.
  - unfold go_to_events. rewrite !slept_app, slept_steps_events.
    cbn [slept]. ring.
  - unfold go_to_events. rewrite !reads_app, reads_steps_events.
    cbn [reads]. lia.
Qed.

Lemma go_to_cost_example :
  exists tr,
    snd (_go_to scenario_lab 0.0 2.0 smua None (Some 1.5) []) = [] ++ tr
    /\ slept tr
       == 1 + 0.1 * inject_Z (Z.of_nat (List.length (writes smua tr)))
    /\ reads smua tr
       = ((if truthy (Some 1.5%Q) then 2 else 1)
          * List.length (writes smua tr))%nat.
Proof.
  apply (@go_to_cost scenario_lab 0.0 2.0 smua None (Some 1.5)
           [0; 1 # 5; 2 # 5; 3 # 5; 4 # 5; 1; 6 # 5; 7 # 5; 8 # 5; 9 # 5; 2.0]
           []).
  vm_compute. reflexivity.
Defined.

End GoToFurther.

(** ** Further properties of [gate_map] and of the discovery *)

Section GateMapFurther.

Import DoubleGateMap Trace Scenarios Measures.

(** X5.  On a station that holds the Keithley, with an empty [xarray],
    [gate_map] raises [IndexError] at [xarray[0]]: by then
    [initialise_keithley] has run and both resting voltages have been read,
    but no gate has moved and [sweep2d] is not called. *)
Theorem gate_map_empty_xarray (L : lab) (inner_delay : Q) (yarray : list Q)
  (outer_delay : Q) (station : Station) (exp : option nat)
  (label : option string) (measure_retrace : option bool) (h : list event) :
  holds station "keithley" ->
  gate_map L [] inner_delay yarray outer_delay station exp label
    measure_retrace h
  = (Raised IndexError, h ++ [InitialiseKeithley; VoltGet smua; VoltGet smub]).
Proof.
  intros Hkeithley. unfold gate_map.
  rewrite bind_emit, bind_station_attr by assumption.
  rewrite volt_get_run, bind_station_attr by assumption.
  rewrite volt_get_run.
  cbn [index nth_error]. rewrite bind_raise. now rewrite <- !app_assoc.
Qed.

Lemma gate_map_empty_xarray_example :
  gate_map quiet_lab [] 0.1 [0.2; 3] 0.1 lockin_station None None None []
  = (Raised IndexError, [] ++ [InitialiseKeithley; VoltGet smua; VoltGet smub]).
Proof.
  apply (@gate_map_empty_xarray quiet_lab 0.1 [0.2; 3] 0.1 lockin_station
           None None None []).
  unfold holds. cbn. tauto.
Defined.

(** X6.  On a station that holds the Keithley, with a non-empty [xarray]
    and an empty [yarray], [gate_map] raises [IndexError] at [yarray[0]]
    only after the top gate has been stepped all the way to [xarray[0]]:
    the error leaves the top gate moved, the back gate untouched and
    [sweep2d] not called. *)
Theorem gate_map_empty_yarray (L : lab) (x0 : Q) (xs : list Q)
  (inner_delay outer_delay : Q) (station : Station) (exp : option nat)
  (label : option string) (measure_retrace : option bool) (h : list event) :
  holds station "keithley" ->
  (forall a b, exists pre,
      generate_1D_sweep_array L a b 2e-1 = Returned (pre ++ [b])) ->
  exists top,
    gate_map L (x0 :: xs) inner_delay [] outer_delay station exp label
      measure_retrace h
    = (Raised IndexError,
       h ++ [InitialiseKeithley; VoltGet smua; VoltGet smub]
         ++ go_to_events smua None (top ++ [x0]))
    /\ generate_1D_sweep_array L
         (volt_of L smua (h ++ [InitialiseKeithley])) x0 2e-1
       = Returned (top ++ [x0])
    /\ writes smua (go_to_events smua None (top ++ [x0])) = top ++ [x0]
    /\ writes smub (go_to_events smua None (top ++ [x0])) = [].
Proof.
  intros Hkeithley Hgen.
  destruct (Hgen (volt_of L smua (h ++ [InitialiseKeithley])) x0)
    as [top Htop].
  exists top. split; [|split; [exact Htop|split]].
  - unfold gate_map.
    rewrite bind_emit, bind_station_attr by assumption.
    rewrite volt_get_run, bind_station_attr by assumption.
    rewrite volt_get_run.
    unfold index at 1. cbn [nth_error].
    rewrite bind_ret, bind_station_attr by assumption.
    unfold bind at 1.
    rewrite (@go_to_run_no_threshold L _ x0 smua _ top _ Htop).
    cbn [index nth_error]. rewrite bind_raise. now rewrite <- !app_assoc.
  - apply writes_go_to_events.
  - now rewrite writes_go_to_events_on.
Qed.

Lemma gate_map_empty_yarray_example :
  exists top,
    gate_map quiet_lab (0.4 :: [1]) 0.1 [] 0.1 bare_station None None None []
    = (Raised IndexError,
       [] ++ [InitialiseKeithley; VoltGet smua; VoltGet smub]
          ++ go_to_events smua None (top ++ [0.4]))
    /\ generate_1D_sweep_array quiet_lab
         (volt_of quiet_lab smua ([] ++ [InitialiseKeithley])) 0.4 2e-1
       = Returned (top ++ [0.4])
    /\ writes smua (go_to_events smua None (top ++ [0.4])) = top ++ [0.4]
    /\ writes smub (go_to_events smua None (top ++ [0.4])) = [].
Proof.
  apply (@gate_map_empty_yarray quiet_lab 0.4 [1] 0.1 0.1 bare_station None
           None None []).
  - unfold holds. cbn. tauto.
  - exact spec_sweep_array_ends.
Defined.

(** Filtering the entries of a dict leaves its keys distinct. *)
Lemma discovered_keys_distinct (items : list (string * component)) :
  NoDup (map fst items) -> NoDup (map fst (filter exact_mfli items)).
Proof.
  induction items as [|entry items IH]; intros Hkeys; [constructor|].
  cbn [map] in Hkeys. apply NoDup_cons_iff in Hkeys.
  destruct Hkeys as [Hfresh Hkeys]. cbn [filter].
  destruct (exact_mfli entry); [|now apply IH].
  cbn [map]. apply NoDup_cons; [|now apply IH].
  intros Hin. apply Hfresh.
  apply in_map_iff in Hin. destruct Hin as (other & Hkey & Hother).
  apply filter_In in Hother. rewrite <- Hkey. apply in_map. tauto.
Qed.

Lemma find_lockins_nodup (station : Station) :
  NoDup (map fst (components station)) ->
  NoDup (find_lockins (components station) []).
Proof.
  intros Hkeys. rewrite find_lockins_filter. cbn [app].
  now apply discovered_keys_distinct.
Qed.

(** X7.  On a station (a dict: unique keys) the discovered lock-in names
    are keys of the station, no name is discovered twice, and discovery
    over a dict made of two parts is the discovery over the first part
    followed by that over the second: the order of the dict is kept. *)
Theorem find_lockins_distinct_in_order (station : Station) :
  NoDup (map fst (components station)) ->
  NoDup (find_lockins (components station) [])
  /\ (forall n, In n (find_lockins (components station) []) ->
                In n (map fst (components station)))
  /\ (forall first second,
        components station = first ++ second ->
        find_lockins (components station) []
        = find_lockins first [] ++ find_lockins second []).
Proof.
  intros Hnd. split; [now apply find_lockins_nodup|]. split.
  - intros n Hin. apply in_find_lockins in Hin.
    destruct Hin as (itm & Hitm & _). apply in_map_iff.
    now exists (n, itm).
  - intros first second ->.
    rewrite !find_lockins_filter. cbn [app].
    now rewrite filter_app, map_app.
Qed.

Lemma find_lockins_distinct_in_order_example :
  NoDup (find_lockins (components lockin_station) [])
  /\ (forall n, In n (find_lockins (components lockin_station) []) ->
                In n (map fst (components lockin_station)))
  /\ (forall first second,
        components lockin_station = first ++ second ->
        find_lockins (components lockin_station) []
        = find_lockins first [] ++ find_lockins second []).
Proof.
  apply (@find_lockins_distinct_in_order lockin_station).
  exact lockin_station_keys.
Defined.

End GateMapFurther.

(** ** Further properties of [initialise_lockin] *)

Section LockinFurther.

Import DoubleGateMap Trace Scenarios Measures Lockin.

(** A loop whose body only adds events, the same way whatever the history. *)
Lemma for_each_emits {Ev A} (body : A -> M Ev unit) (ev : A -> list Ev) :
  (forall a h, body a h = (Returned tt, h ++ ev a)) ->
  forall l h, for_each l body h = (Returned tt, h ++ flat_map ev l).
Proof.
  intros Hbody. induction l as [|a l IH]; intros h; cbn [for_each flat_map].
  - unfold ret. now rewrite app_nil_r.
  - unfold bind. rewrite Hbody, IH. now rewrite <- app_assoc.
Qed.

(** The whole run of [initialise_lockin] when a lock-in is discovered. *)
Lemma initialise_lockin_run (station : Station) (freq : Q) (l0 : string)
  (others : list string) (h : list event) :
  find_lockins (components station) [] = l0 :: others ->
  initialise_lockin station freq h
  = (Returned tt,
     h ++ set_all l0 (reference_settings freq)
       ++ flat_map (fun l => set_all l sync_settings) others
       ++ flat_map (fun l => set_all l input_settings) (l0 :: others)
       ++ [lockin_summary l0 freq others]).
Proof.
  intros Hfound. unfold initialise_lockin. rewrite Hfound.
  unfold first_set, index. cbn [nth_error tl].
  repeat (rewrite bind_assoc, bind_ret, bind_emit).
  unfold bind at 1.
  rewrite (for_each_emits _ (fun l => set_all l sync_settings)).
  2:{ intros a h1. unfold lockin_set. rewrite !bind_emit. unfold emit.
      now rewrite <- !app_assoc. }
  unfold bind at 1.
  rewrite (for_each_emits _ (fun l => set_all l input_settings)).
  2:{ intros a h1. unfold lockin_set. rewrite !bind_emit. unfold emit.
      now rewrite <- !app_assoc. }
  rewrite bind_ret. unfold emit. now rewrite <- !app_assoc.
Qed.

Lemma initialise_lockin_trace (station : Station) (freq : Q) (l0 : string)
  (others : list string) (h tr : list event) (r : res unit) :
  find_lockins (components station) [] = l0 :: others ->
  initialise_lockin station freq h = (r, h ++ tr) ->
  tr = set_all l0 (reference_settings freq)
       ++ flat_map (fun l => set_all l sync_settings) others
       ++ flat_map (fun l => set_all l input_settings) (l0 :: others)
       ++ [lockin_summary l0 freq others].
Proof.
  intros Hfound Hrun.
  rewrite (initialise_lockin_run station freq h Hfound) in Hrun.
  apply (f_equal snd) in Hrun. cbn [snd] in Hrun.
  apply app_inv_head in Hrun. now symmetry.
Qed.

Lemma settings_of_app (l : string) (tr1 tr2 : list event) :
  settings_of l (tr1 ++ tr2) = settings_of l tr1 ++ settings_of l tr2.
Proof.
  induction tr1 as [|e tr1 IH]; [reflexivity|].
  destruct e; cbn [app settings_of]; try exact IH.
  destruct (String.eqb lockin l); cbn [app]; now rewrite IH.
Qed.

Lemma settings_of_set_all (l l' : string) (s : list (string * setting)) :
  settings_of l (set_all l' s) = if String.eqb l' l then s else [].
Proof.
  induction s as [|[node value] s IH]; cbn [set_all map settings_of fst snd].
  - now destruct (String.eqb l' l).
  - unfold set_all in IH. rewrite IH. now destruct (String.eqb l' l).
Qed.

Lemma settings_of_others (l : string) (s : list (string * setting))
  (names : list string) :
  ~ In l names ->
  settings_of l (flat_map (fun x => set_all x s) names) = [].
Proof.
  induction names as [|n names IH]; [reflexivity|]. intros Hnot.
  cbn [flat_map]. rewrite settings_of_app, settings_of_set_all, IH.
  - destruct (String.eqb n l) eqn:E; [|reflexivity].
    apply String.eqb_eq in E. subst. exfalso. apply Hnot. now left.
  - intros Hin. apply Hnot. now right.
Qed.

Lemma settings_of_member (l : string) (s : list (string * setting))
  (names : list string) :
  NoDup names -> In l names ->
  settings_of l (flat_map (fun x => set_all x s) names) = s.
Proof.
  induction names as [|n names IH]; [easy|]. intros Hnd Hin.
  inversion Hnd as [|? ? Hnotin Hrest]; subst.
  cbn [flat_map]. rewrite settings_of_app, settings_of_set_all.
  destruct (String.eqb n l) eqn:E.
  - apply String.eqb_eq in E. subst.
    rewrite settings_of_others by assumption. apply app_nil_r.
  - destruct Hin as [->|Hin]; [now rewrite String.eqb_refl in E|].
    now rewrite IH.
Qed.

(** What each discovered lock-in is sent, in order. *)
Lemma settings_of_initialise (l0 : string) (others : list string) (freq : Q)
  (l : string) :
  NoDup (l0 :: others) ->
  In l (l0 :: others) ->
  settings_of l
    (set_all l0 (reference_settings freq)
     ++ flat_map (fun x => set_all x sync_settings) others
     ++ flat_map (fun x => set_all x input_settings) (l0 :: others)
     ++ [lockin_summary l0 freq others])
  = (if String.eqb l0 l then reference_settings freq else sync_settings)
    ++ input_settings.
Proof.
  intros Hnd Hin. inversion Hnd as [|? ? Hnotin Hrest]; subst.
  rewrite !settings_of_app, settings_of_set_all.
  rewrite (settings_of_member _ _ Hnd Hin). cbn [settings_of lockin_summary].
  rewrite app_nil_r. destruct (String.eqb l0 l) eqn:E.
  - apply String.eqb_eq in E. subst.
    now rewrite settings_of_others by assumption.
  - destruct Hin as [->|Hin]; [now rewrite String.eqb_refl in E|].
    now rewrite settings_of_member by assumption.
Qed.

Lemma final_setting_app (node : string) (a b : list (string * setting)) :
  final_setting node (a ++ b)
  = match final_setting node b with
    | Some v => Some v
    | None => final_setting node a
    end.
Proof.
  induction a as [|[n v] a IH]; cbn [app final_setting].
  - now destruct (final_setting node b).
  - rewrite IH. destruct (final_setting node b); [reflexivity|].
    reflexivity.
Qed.

(** X8.  What a completed run of [initialise_lockin] has done, when
    the first discovered lock-in is [l0] and the others are [others]: it
    has written 24 settings for [l0] and 18 for each of the others, all of
    them to discovered lock-ins, and then printed its one summary line;
    nothing else. *)
Theorem initialise_lockin_inventory (station : Station) (freq : Q)
  (l0 : string) (others : list string) (h tr : list event) :
  find_lockins (components station) [] = l0 :: others ->
  initialise_lockin station freq h = (Returned tt, h ++ tr) ->
  exists written,
    tr = written ++ [lockin_summary l0 freq others]
    /\ forallb is_lockin_set written = true
    /\ List.length written = (24 + 18 * List.length others)%nat
    /\ (forall l node value,
          In (LockinSet l node value) written -> In l (l0 :: others)).
Proof.
  intros Hfound Hrun.
  exists (set_all l0 (reference_settings freq)
          ++ flat_map (fun l => set_all l sync_settings) others
          ++ flat_map (fun l => set_all l input_settings) (l0 :: others)).
  rewrite (@initialise_lockin_trace station freq l0 others h tr
             (Returned tt) Hfound Hrun).
  split; [now rewrite <- !app_assoc|].
  assert (Hset : forall l s, forallb is_lockin_set (set_all l s) = true).
  { intros l s. unfold set_all. induction s; [reflexivity|assumption]. }
  assert (Hflat : forall s names,
             forallb is_lockin_set (flat_map (fun l => set_all l s) names)
             = true).
  { intros s names. induction names as [|n names IH]; [reflexivity|].
    cbn [flat_map]. rewrite forallb_app, Hset. exact IH. }
  assert (Hlen : forall s names,
             List.length (flat_map (fun l => set_all l s) names)
             = (List.length s * List.length names)%nat).
  { intros s names. induction names as [|n names IH]; cbn [flat_map].
    - cbn. lia.
    - rewrite length_app, IH. unfold set_all. rewrite length_map.
      cbn [List.length]. lia. }
  split; [|split].
  - rewrite !forallb_app, Hset, !Hflat. reflexivity.
  - rewrite !length_app, !Hlen. unfold set_all. rewrite length_map.
    cbn [List.length reference_settings sync_settings input_settings]. lia.
  - intros l node value Hin.
    assert (Hin_set : forall l' s, In (LockinSet l node value) (set_all l' s)
                                   -> l = l').
    { intros l' s H. unfold set_all in H. apply in_map_iff in H.
      destruct H as (x & [= -> _ _] & _). reflexivity. }
    assert (Hin_flat : forall s names,
               In (LockinSet l node value)
                  (flat_map (fun x => set_all x s) names) -> In l names).
    { intros s names H. apply in_flat_map in H.
      destruct H as (x & Hx & Hs). now rewrite (Hin_set _ _ Hs). }
    apply in_app_or in Hin. destruct Hin as [Hin|Hin].
    + left. symmetry. now apply (Hin_set _ _ Hin).
    + apply in_app_or in Hin. destruct Hin as [Hin|Hin].
      * right. now apply (Hin_flat _ _ Hin).
      * now apply (Hin_flat _ _ Hin).
Qed.

Lemma initialise_lockin_inventory_example :
  exists written,
    snd (initialise_lockin lockin_station 127 [])
    = written ++ [lockin_summary "mf1" 127 ["mf2"%string]]
    /\ forallb is_lockin_set written = true
    /\ List.length written = (24 + 18 * List.length ["mf2"%string])%nat
    /\ (forall l node value,
          In (LockinSet l node value) written ->
          In l ("mf1" :: ["mf2"])%string).
Proof.
  apply (@initialise_lockin_inventory lockin_station 127 "mf1"
           ["mf2"%string] [] (snd (initialise_lockin lockin_station 127 []))).
  - reflexivity.
  - vm_compute. reflexivity.
Defined.

(** X9.  After [initialise_lockin] on a station with unique keys, the
    first discovered lock-in is the only source of the reference signal:
    its signal output is left on, its oscillator is set to [freq], and it
    gets no external-reference setting; every other discovered lock-in has
    its signal output left off, its external reference enabled, and its
    oscillator frequency not written. *)
Theorem initialise_lockin_one_reference (station : Station) (freq : Q)
  (l0 : string) (others : list string) (h tr : list event)
  (r : res unit) :
  NoDup (map fst (components station)) ->
  find_lockins (components station) [] = l0 :: others ->
  initialise_lockin station freq h = (r, h ++ tr) ->
  (final_setting "sigouts[0].on" (settings_of l0 tr) = Some (SNum 1)
   /\ final_setting "oscs[0].freq" (settings_of l0 tr) = Some (SNum freq)
   /\ final_setting "extrefs[0].enable" (settings_of l0 tr) = None)
  /\ (forall l, In l others ->
        final_setting "sigouts[0].on" (settings_of l tr) = Some (SNum 0)
        /\ final_setting "extrefs[0].enable" (settings_of l tr)
           = Some (SNum 1)
        /\ final_setting "oscs[0].freq" (settings_of l tr) = None).
Proof.
  intros Hkeys Hfound Hrun.
  pose proof (find_lockins_nodup station Hkeys) as Hnd.
  rewrite Hfound in Hnd.
  rewrite (@initialise_lockin_trace station freq l0 others h tr r Hfound Hrun).
  split.
  - rewrite (@settings_of_initialise l0 others freq l0 Hnd)
      by now left.
    rewrite String.eqb_refl. repeat split.
  - intros l Hl.
    rewrite (@settings_of_initialise l0 others freq l Hnd)
      by now right.
    destruct (String.eqb l0 l) eqn:E.
    + apply String.eqb_eq in E. subst. inversion Hnd. contradiction.
    + repeat split.
Qed.

Lemma initialise_lockin_one_reference_example :
  (final_setting "sigouts[0].on"
     (settings_of "mf1" (snd (initialise_lockin lockin_station 127 [])))
   = Some (SNum 1)
   /\ final_setting "oscs[0].freq"
        (settings_of "mf1" (snd (initialise_lockin lockin_station 127 [])))
      = Some (SNum 127)
   /\ final_setting "extrefs[0].enable"
        (settings_of "mf1" (snd (initialise_lockin lockin_station 127 [])))
      = None)
  /\ (forall l, In l ["mf2"%string] ->
        final_setting "sigouts[0].on"
          (settings_of l (snd (initialise_lockin lockin_station 127 [])))
        = Some (SNum 0)
        /\ final_setting "extrefs[0].enable"
             (settings_of l (snd (initialise_lockin lockin_station 127 [])))
           = Some (SNum 1)
        /\ final_setting "oscs[0].freq"
             (settings_of l (snd (initialise_lockin lockin_station 127 [])))
           = None).
Proof.
  apply (@initialise_lockin_one_reference lockin_station 127 "mf1"
           ["mf2"%string] []
           (snd (initialise_lockin lockin_station 127 []))
           (Returned tt) lockin_station_keys eq_refl).
  vm_compute. reflexivity.
Defined.

(** X10.  After [initialise_lockin] on a station with unique keys, every
    discovered lock-in, the first included, is left with the same thirteen
    demodulator and signal-input settings of lines 40-54. *)
Theorem initialise_lockin_common_settings (station : Station) (freq : Q)
  (l0 : string) (others : list string) (h tr : list event)
  (r : res unit) (l node : string) (value : setting) :
  NoDup (map fst (components station)) ->
  find_lockins (components station) [] = l0 :: others ->
  initialise_lockin station freq h = (r, h ++ tr) ->
  In l (l0 :: others) ->
  In (node, value) input_settings ->
  final_setting node (settings_of l tr) = Some value.
Proof.
  intros Hkeys Hfound Hrun Hl Hin.
  pose proof (find_lockins_nodup station Hkeys) as Hnd.
  rewrite Hfound in Hnd.
  rewrite (@initialise_lockin_trace station freq l0 others h tr r Hfound Hrun).
  rewrite (@settings_of_initialise l0 others freq l Hnd Hl).
  rewrite final_setting_app.
  replace (final_setting node input_settings) with (Some value);
    [reflexivity|].
  cbn [In input_settings] in Hin.
  repeat (destruct Hin as [[= <- <-]|Hin]; [reflexivity|]).
  contradiction.
Qed.

Lemma initialise_lockin_common_settings_example :
  final_setting "demods[0].timeconstant"
    (settings_of "mf2" (snd (initialise_lockin lockin_station 127 [])))
  = Some (SNum 0.1).
Proof.
  apply (@initialise_lockin_common_settings lockin_station 127 "mf1"
           ["mf2"%string] []
           (snd (initialise_lockin lockin_station 127 []))
           (Returned tt) "mf2" "demods[0].timeconstant" (SNum 0.1)
           lockin_station_keys eq_refl).
  - vm_compute. reflexivity.
  - right. now left.
  - cbn. tauto.
Defined.

End LockinFurther.

(** ** Further properties of the plotting functions *)

Section PlotFurther.

Import Plot.

Open Scope string_scope.
Open Scope list_scope.

Lemma load_preparsed_value_error (E : env) (id : ident) (var : string)
  (complex_plot_type complex_plot_phase : string) (h : list event) :
  str_in complex_plot_type complex_plot_types = false
  \/ str_in complex_plot_phase ["radians"; "degrees"] = false
  \/ (exists dat variables,
        get_dataset E id = Returned dat
        /\ list_parameters E id = Returned variables
        /\ str_in var variables = false) ->
  load_preparsed E id var complex_plot_type complex_plot_phase h
  = (Raised ValueError, h).
Proof.
  intros Hbad. unfold load_preparsed.
  destruct (str_in complex_plot_type complex_plot_types); [|reflexivity].
  destruct (str_in complex_plot_phase ["radians"; "degrees"]);
    [|reflexivity].
  destruct Hbad as [Hbad|[Hbad|(dat & variables & Hdat & Hvars & Hvar)]];
    try discriminate.
  cbn [negb]. unfold bind, lift. rewrite Hdat, Hvars, Hvar. reflexivity.
Qed.

(** X11.  Both plotting functions refuse their arguments with
    [ValueError], before anything is printed, requested from matplotlib or
    drawn, when the plot type is not one of the six known, or the phase
    unit is neither 'radians' nor 'degrees', or the dataset loads but
    [var] is not one of its dependent parameters. *)
Theorem plot_argument_errors (E : env) (id : ident) (var : string)
  (rescale_axes : bool) (multiply_by1 : Q * Q) (multiply_by2 : Q * Q * Q)
  (complex_plot_type complex_plot_phase : string) (size : Q)
  (h : list event) :
  str_in complex_plot_type complex_plot_types = false
  \/ str_in complex_plot_phase ["radians"; "degrees"] = false
  \/ (exists dat variables,
        get_dataset E id = Returned dat
        /\ list_parameters E id = Returned variables
        /\ str_in var variables = false) ->
  plot_dataset_1D E id var rescale_axes multiply_by1 complex_plot_type
    complex_plot_phase size h = (Raised ValueError, h)
  /\ plot_dataset_2D E id var rescale_axes multiply_by2 complex_plot_type
       complex_plot_phase size h = (Raised ValueError, h).
Proof.
  intros Hbad.
  pose proof (load_preparsed_value_error E id var complex_plot_type
                complex_plot_phase h Hbad) as Hload.
  split.
  - unfold plot_dataset_1D. unfold bind at 1. now rewrite Hload.
  - unfold plot_dataset_2D. unfold bind at 1. now rewrite Hload.
Qed.

Lemma plot_argument_errors_example :
  plot_dataset_1D real_env (RunId 7) "conductance" true (1, 1)%Q "mag"
    "degrees" 8 [] = (Raised ValueError, [])
  /\ plot_dataset_2D real_env (RunId 7) "conductance" true (1, 1, 1)%Q "mag"
       "degrees" 8 [] = (Raised ValueError, []).
Proof.
  apply (@plot_argument_errors real_env (RunId 7) "conductance" true
           (1, 1)%Q (1, 1, 1)%Q "mag" "degrees" 8%Q []).
  right. right. exists demo_info, ["R"]. repeat split.
Defined.

(** X12.  The plot types that keep one component ('real', 'mag', 'imag',
    'phase') ask [plt.subplots] for one panel.  When it then hands back a
    single Axes object, as it does for one row, the [zip] over it raises
    [TypeError]: both functions fail after their print, with nothing
    drawn. *)
Theorem plot_single_component_type_error (E : env) (id : ident)
  (var : string) (rescale_axes : bool) (multiply_by1 : Q * Q)
  (multiply_by2 : Q * Q * Q) (complex_plot_type complex_plot_phase : string)
  (size : Q) (h : list event) (title : fstr) (a0 a1 : axis_data)
  (more : plot_data) (others : list plot_data) (ax : nat) :
  In complex_plot_type ["real"; "mag"; "imag"; "phase"] ->
  load_preparsed E id var complex_plot_type complex_plot_phase h
  = (Returned (title, (a0 :: a1 :: more) :: others), h) ->
  (complex_plot_type = "imag" \/ complex_plot_type = "phase" ->
   others <> []) ->
  subplots E 1 (size, 0.7 * size * inject_Z (Z.of_nat 1))%Q
  = Returned (OneAxes ax) ->
  plot_dataset_1D E id var rescale_axes multiply_by1 complex_plot_type
    complex_plot_phase size h
  = (Raised TypeError,
     h ++ [Print [Lit "plot_dataset_1D:"; Newline; Lit "X_axis: ";
                  Str (axis_name a0); Tab; Lit " Y_axis: "; Str var];
           Subplots 1 (size, 0.7 * size * inject_Z (Z.of_nat 1))%Q])
  /\ plot_dataset_2D E id var rescale_axes multiply_by2 complex_plot_type
       complex_plot_phase size h
     = (Raised TypeError,
        h ++ [Print [Lit "plot_dataset_2D:"; Newline; Lit "X_axis: ";
                     Str (axis_name a0); Tab; Lit " Y_axis: ";
                     Str (axis_name a1); Tab; Lit " Z_axis: "; Str var];
              Subplots 1 (size, 0.7 * size * inject_Z (Z.of_nat 1))%Q]).
Proof.
  intros Htype Hload Hsecond Hsub.
  assert (Hsel : exists d,
             select_component complex_plot_type
               ((a0 :: a1 :: more) :: others) h = (Returned [d], h)).
  { cbn [In] in Htype.
    destruct Htype as [<-|[<-|[<-|[<-|[]]]]].
    - eexists. reflexivity.
    - eexists. reflexivity.
    - destruct others as [|d1 rest]; [now destruct Hsecond; auto|].
      eexists. reflexivity.
    - destruct others as [|d1 rest]; [now destruct Hsecond; auto|].
      eexists. reflexivity. }
  destruct Hsel as [d Hsel].
  split.
  - unfold plot_dataset_1D. unfold bind at 1. rewrite Hload.
    unfold index at 1. cbn [nth_error]. rewrite bind_ret.
    unfold index at 1. cbn [nth_error]. rewrite bind_ret.
    unfold bind at 1. rewrite Hsel. cbn [List.length].
    rewrite !bind_emit. unfold bind at 1, lift at 1. rewrite Hsub.
    cbn [zip2]. rewrite bind_raise. now rewrite <- app_assoc.
  - unfold plot_dataset_2D. unfold bind at 1. rewrite Hload.
    unfold index at 1. cbn [nth_error]. rewrite bind_ret.
    unfold index at 1. cbn [nth_error]. rewrite bind_ret.
    unfold index at 1. cbn [nth_error]. rewrite bind_ret.
    unfold bind at 1. rewrite Hsel. cbn [List.length].
    rewrite !bind_emit. unfold bind at 1, lift at 1. rewrite Hsub.
    cbn [zip3]. rewrite bind_raise. now rewrite <- app_assoc.
Qed.

Lemma plot_single_component_type_error_example :
  plot_dataset_1D complex_env (RunId 7) "R" true (1, 1)%Q "phase" "degrees"
    8 []
  = (Raised TypeError,
     [] ++ [Print [Lit "plot_dataset_1D:"; Newline; Lit "X_axis: ";
                   Str (axis_name (demo_axis "keithley_smua_volt")); Tab;
                   Lit " Y_axis: "; Str "R"];
            Subplots 1 (8, 0.7 * 8 * inject_Z (Z.of_nat 1))%Q])
  /\ plot_dataset_2D complex_env (RunId 7) "R" true (1, 1, 1)%Q "phase"
       "degrees" 8 []
     = (Raised TypeError,
        [] ++ [Print [Lit "plot_dataset_2D:"; Newline; Lit "X_axis: ";
                      Str (axis_name (demo_axis "keithley_smua_volt")); Tab;
                      Lit " Y_axis: ";
                      Str (axis_name (demo_axis "keithley_smub_volt")); Tab;
                      Lit " Z_axis: "; Str "R"];
               Subplots 1 (8, 0.7 * 8 * inject_Z (Z.of_nat 1))%Q]).
Proof.
  apply (@plot_single_component_type_error complex_env (RunId 7) "R" true
           (1, 1)%Q (1, 1, 1)%Q "phase" "degrees" 8%Q [] (title_of demo_info)
           (demo_axis "keithley_smua_volt") (demo_axis "keithley_smub_volt")
           [demo_axis "R_mag"] [demo_panel "R_phase"] 0%nat).
  - cbn. tauto.
  - vm_compute. reflexivity.
  - intros _. discriminate.
  - reflexivity.
Defined.

Lemma str_in_cases (s : string) (l : list string) :
  str_in s l = true -> In s l.
Proof.
  unfold str_in. intros H. apply existsb_exists in H.
  destruct H as (x & Hx & Heq). apply String.eqb_eq in Heq. now subst.
Qed.

(** X13.  Whenever the loading stage of the plotting functions succeeds,
    the qcodes pre-parser has been asked for one of two conversions only:
    'real_and_imag' for the plot types 'real', 'imag' and 'real_and_imag',
    'mag_and_phase' for 'mag', 'phase' and 'mag_and_phase'; phases are in
    degrees exactly when the phase unit is 'degrees'; and [var] is one of
    the dependent parameters of the dataset. *)
Theorem preparser_conversion (E : env) (id : ident) (var : string)
  (complex_plot_type complex_plot_phase : string) (h h' : list event)
  (title : fstr) (dataset : list plot_data) :
  load_preparsed E id var complex_plot_type complex_plot_phase h
  = (Returned (title, dataset), h') ->
  exists dat variables raw_data conversion,
    (conversion = "real_and_imag"
     /\ In complex_plot_type ["real"; "imag"; "real_and_imag"]
     \/ conversion = "mag_and_phase"
        /\ In complex_plot_type ["mag"; "phase"; "mag_and_phase"])
    /\ get_dataset E id = Returned dat
    /\ list_parameters E id = Returned variables
    /\ In var variables
    /\ get_data_by_paramname E dat var = Returned raw_data
    /\ _complex_to_real_preparser E [raw_data] conversion
         (String.eqb complex_plot_phase "degrees")
       = Returned dataset
    /\ title = title_of dat
    /\ h' = h.
Proof.
  unfold load_preparsed.
  destruct (str_in complex_plot_type complex_plot_types) eqn:Htype;
    [|discriminate].
  destruct (str_in complex_plot_phase ["radians"; "degrees"]);
    [|discriminate].
  cbn [negb]. unfold bind, lift, ret, raise.
  destruct (get_dataset E id) as [dat|] eqn:Hdat; [|discriminate].
  destruct (list_parameters E id) as [variables|] eqn:Hvars; [|discriminate].
  destruct (str_in var variables) eqn:Hvar; [|discriminate]. cbn [negb].
  destruct (get_data_by_paramname E dat var) as [raw_data|] eqn:Hraw;
    [|discriminate].
  destruct (_complex_to_real_preparser E [raw_data]
              (complex_type_of complex_plot_type)
              (String.eqb complex_plot_phase "degrees")) as [parsed|] eqn:Hpre;
    [|discriminate].
  intros [= <- <- <-].
  exists dat, variables, raw_data, (complex_type_of complex_plot_type).
  split.
  - apply str_in_cases in Htype. cbn [In complex_plot_types] in Htype.
    destruct Htype as [<-|[<-|[<-|[<-|[<-|[<-|[]]]]]]]; cbn; tauto.
  - repeat split; try assumption. now apply str_in_cases.
Qed.

Lemma preparser_conversion_example :
  exists dat variables raw_data conversion,
    (conversion = "real_and_imag"
     /\ In "phase" ["real"; "imag"; "real_and_imag"]
     \/ conversion = "mag_and_phase"
        /\ In "phase" ["mag"; "phase"; "mag_and_phase"])
    /\ get_dataset complex_env (RunId 7) = Returned dat
    /\ list_parameters complex_env (RunId 7) = Returned variables
    /\ In "R" variables
    /\ get_data_by_paramname complex_env dat "R" = Returned raw_data
    /\ _complex_to_real_preparser complex_env [raw_data] conversion
         (String.eqb "radians" "degrees")
       = Returned [demo_panel "R_mag"; demo_panel "R_phase"]
    /\ title_of demo_info = title_of dat
    /\ @nil event = [].
Proof.
  apply (@preparser_conversion complex_env (RunId 7) "R" "phase" "radians"
           [] [] (title_of demo_info)
           [demo_panel "R_mag"; demo_panel "R_phase"]).
  vm_compute. reflexivity.
Defined.

End PlotFurther.

Section PlotPanels.

Import Plot.

Lemma silent_run {Ev A} (c : M Ev A) (h h' : list Ev) (x : res A) :
  snd (c h) = h -> c h = (x, h') -> h' = h.
Proof. intros Hs Hrun. rewrite Hrun in Hs. now cbn [snd] in Hs. Qed.

Lemma index_returned {Ev A} (l : list A) (i : nat) (h h' : list Ev) (a : A) :
  index l i h = (Returned a, h') -> h' = h.
Proof.
  unfold index. destruct (nth_error l i); [|discriminate].
  now intros [= _ <-].
Qed.

(** A loop that has returned, with a body that adds one event each time it
    returns. *)
Lemma for_each_returned {Ev A} (body : A -> M Ev unit) (ev : A -> Ev) :
  (forall a h u h', body a h = (Returned u, h') -> h' = h ++ [ev a]) ->
  forall l h u h',
    for_each l body h = (Returned u, h') -> h' = h ++ map ev l.
Proof.
  intros Hbody. induction l as [|a l IH]; intros h u h' Hrun.
  - cbn in Hrun. injection Hrun as _ <-. now rewrite app_nil_r.
  - cbn [for_each] in Hrun. apply bind_returned in Hrun.
    destruct Hrun as (u1 & h1 & Ha & Hrest).
    apply Hbody in Ha. apply IH in Hrest. subst.
    now rewrite <- app_assoc.
Qed.

Lemma map_combine_repeat {A B C} (f : A -> C) (l : list A) (x : B) (n : nat) :
  (List.length l <= n)%nat ->
  map (fun t => f (fst t)) (combine l (repeat x n)) = map f l.
Proof.
  revert n. induction l as [|a l IH]; intros n Hn; [reflexivity|].
  destruct n as [|n]; [cbn in Hn; lia|].
  cbn [repeat combine map fst]. f_equal. apply IH. cbn in Hn. lia.
Qed.

Ltac step_returned H x hx Hx :=
  apply bind_returned in H; destruct H as (x & hx & Hx & H).

(** X14.  When a plotting function returns, what it has caused is: one
    printed line, one request for as many panels as the selection kept,
    and then one drawing per panel, the i-th selected component on the
    i-th Axes of the array [plt.subplots] gave, in order and as far as
    both lists go; [plot_dataset_2D] passes the caller's [multiply_by] to
    each drawing. *)
Theorem plot_panels_in_order :
  (forall E id var rescale_axes multiply_by complex_plot_type
          complex_plot_phase size h r tr,
      plot_dataset_1D E id var rescale_axes multiply_by complex_plot_type
        complex_plot_phase size h = (Returned r, h ++ tr) ->
      exists title dataset selected axs line,
        let nplots := List.length selected in
        let figsize := (size, 0.7 * size * inject_Z (Z.of_nat nplots))%Q in
        load_preparsed E id var complex_plot_type complex_plot_phase h
        = (Returned (title, dataset), h)
        /\ select_component complex_plot_type dataset h
           = (Returned selected, h)
        /\ subplots E nplots figsize = Returned (AxesArray axs)
        /\ tr = [Print line; Subplots nplots figsize]
                ++ map (fun p => Draw1D (snd p) (fst p) rescale_axes title)
                     (combine selected axs))
  /\ (forall E id var rescale_axes multiply_by complex_plot_type
             complex_plot_phase size h r tr,
        plot_dataset_2D E id var rescale_axes multiply_by complex_plot_type
          complex_plot_phase size h = (Returned r, h ++ tr) ->
        exists title dataset selected axs line,
          let nplots := List.length selected in
          let figsize := (size, 0.7 * size * inject_Z (Z.of_nat nplots))%Q in
          load_preparsed E id var complex_plot_type complex_plot_phase h
          = (Returned (title, dataset), h)
          /\ select_component complex_plot_type dataset h
             = (Returned selected, h)
          /\ subplots E nplots figsize = Returned (AxesArray axs)
          /\ tr = [Print line; Subplots nplots figsize]
                  ++ map (fun p => Draw2D (snd p) (fst p) multiply_by
                                     rescale_axes title)
                       (combine selected axs)).
Proof.
  split.
  - intros E id var rescale_axes multiply_by complex_plot_type
      complex_plot_phase size h r tr Hrun.
    unfold plot_dataset_1D in Hrun.
    apply bind_returned in Hrun.
    destruct Hrun as ([title dataset] & h1 & Hload & Hrun).
    pose proof (@silent_run _ _ _ _ _ _ (load_preparsed_silent _ _ _ _ _ _)
                  Hload).
    subst h1.
    step_returned Hrun d0 h2 Hd0. apply index_returned in Hd0. subst h2.
    step_returned Hrun a0 h3 Ha0. apply index_returned in Ha0. subst h3.
    step_returned Hrun selected h4 Hsel.
    pose proof (@silent_run _ _ _ _ _ _ (select_component_silent _ _ _)
                  Hsel).
    subst h4.
    rewrite !bind_emit in Hrun.
    step_returned Hrun axeslist h5 Hsub.
    unfold lift in Hsub. injection Hsub as Hsub <-.
    step_returned Hrun pairs h6 Hzip.
    destruct axeslist as [ax|axs]; [discriminate Hzip|].
    cbn [zip2] in Hzip. unfold ret in Hzip. injection Hzip as <- <-.
    step_returned Hrun u h7 Hloop.
    unfold ret in Hrun. injection Hrun as _ Hh.
    apply (@for_each_returned _ _ _
             (fun p => Draw1D (snd p) (fst p) rescale_axes title))
      in Hloop.
    + subst h7. rewrite <- !app_assoc in Hh. apply app_inv_head in Hh.
      exists title, dataset, selected, axs. eexists. cbv zeta.
      split; [exact Hload|]. split; [exact Hsel|]. split; [exact Hsub|].
      rewrite <- Hh. reflexivity.
    + intros [data ax] hb ub hb' Hbody. cbn [fst snd].
      step_returned Hbody x1 hb1 H1. apply index_returned in H1. subst hb1.
      step_returned Hbody x2 hb2 H2. apply index_returned in H2. subst hb2.
      rewrite bind_emit in Hbody. unfold lift in Hbody.
      now injection Hbody as _ <-.
  - intros E id var rescale_axes multiply_by complex_plot_type
      complex_plot_phase size h r tr Hrun.
    unfold plot_dataset_2D in Hrun.
    apply bind_returned in Hrun.
    destruct Hrun as ([title dataset] & h1 & Hload & Hrun).
    pose proof (@silent_run _ _ _ _ _ _ (load_preparsed_silent _ _ _ _ _ _)
                  Hload).
    subst h1.
    step_returned Hrun d0 h2 Hd0. apply index_returned in Hd0. subst h2.
    step_returned Hrun a0 h3 Ha0. apply index_returned in Ha0. subst h3.
    step_returned Hrun a1 h3 Ha1. apply index_returned in Ha1. subst h3.
    step_returned Hrun selected h4 Hsel.
    pose proof (@silent_run _ _ _ _ _ _ (select_component_silent _ _ _)
                  Hsel).
    subst h4.
    rewrite !bind_emit in Hrun.
    step_returned Hrun axeslist h5 Hsub.
    unfold lift in Hsub. injection Hsub as Hsub <-.
    step_returned Hrun triples h6 Hzip.
    destruct axeslist as [ax|axs]; [discriminate Hzip|].
    cbn [zip3] in Hzip. unfold ret in Hzip. injection Hzip as <- <-.
    step_returned Hrun u h7 Hloop.
    unfold ret in Hrun. injection Hrun as _ Hh.
    apply (@for_each_returned _ _ _
             (fun t => Draw2D (snd (fst t)) (fst (fst t)) multiply_by
                         rescale_axes title))
      in Hloop.
    + subst h7. rewrite <- !app_assoc in Hh. apply app_inv_head in Hh.
      exists title, dataset, selected, axs. eexists. cbv zeta.
      split; [exact Hload|]. split; [exact Hsel|]. split; [exact Hsub|].
      rewrite <- Hh. cbn [app]. do 2 f_equal.
      apply (map_combine_repeat
               (fun p => Draw2D (snd p) (fst p) multiply_by rescale_axes
                           title)).
      rewrite length_combine. lia.
    + intros [[data ax] colorbar] hb ub hb' Hbody. cbn [fst snd].
      step_returned Hbody x1 hb1 H1. apply index_returned in H1. subst hb1.
      step_returned Hbody x2 hb2 H2. apply index_returned in H2. subst hb2.
      step_returned Hbody x3 hb3 H3. apply index_returned in H3. subst hb3.
      rewrite bind_emit in Hbody. unfold lift in Hbody.
      now injection Hbody as _ <-.
Qed.

Lemma plot_panels_in_order_example :
  exists title dataset selected axs line,
    let nplots := List.length selected in
    let figsize := (8, 0.7 * 8 * inject_Z (Z.of_nat nplots))%Q in
    load_preparsed complex_env (RunId 7) "R" "mag_and_phase" "degrees" []
    = (Returned (title, dataset), [])
    /\ select_component "mag_and_phase" dataset [] = (Returned selected, [])
    /\ subplots complex_env nplots figsize = Returned (AxesArray axs)
    /\ snd (plot_dataset_2D complex_env (RunId 7) "R" true (1, 2, 3)%Q
              "mag_and_phase" "degrees" 8 [])
       = [Print line; Subplots nplots figsize]
         ++ map (fun p => Draw2D (snd p) (fst p) (1, 2, 3)%Q true title)
              (combine selected axs).
Proof.
  apply (proj2 plot_panels_in_order complex_env (RunId 7) "R"%string true
           (1, 2, 3)%Q "mag_and_phase"%string "degrees"%string 8%Q []
           (PyPair (AxesArray [0; 1]%nat) [None; None])
           (snd (plot_dataset_2D complex_env (RunId 7) "R" true (1, 2, 3)%Q
                   "mag_and_phase" "degrees" 8 []))).
  vm_compute. reflexivity.
Defined.

End PlotPanels.
